(** * cypress-code-coverage-v8: the coverage conversion, filter and merge pipeline

    A shallow embedding of
      - [src/lib/common/v8ToIstanbul.js]   (conversion of a V8 snapshot),
      - [src/lib/support/support-utils.js] (the coverage filter, both the
        ES-module and the CommonJS copy found in the sources),
      - [src/support.js]                   (the end-of-run backend collection),
    followed by the properties stated about them.

    Conventions.  A JavaScript string is the sequence of its code units; the
    model uses [string], i.e. code units below 256.  A JavaScript object used
    as a dictionary is a [gmap] with string keys.  A function that can throw,
    or an [async] function that can reject, returns in the [Exc] monad. *)

From Stdlib Require Import String Ascii List Bool NArith Lia.
From stdpp Require Import base option list fin_maps gmap strings.

Local Open Scope string_scope.
#[local] Arguments String.append !s1 s2 : simpl nomatch.

(* ===================================================================== *)
(** * Part I. Definitions                                                 *)
(* ===================================================================== *)

(** ** Exceptions and rejections *)

Inductive JsError : Type :=
| TypeError
| Error (message : string).

Inductive Exc (A : Type) : Type :=
| Ok (a : A)
| Throw (e : JsError).
Arguments Ok {A} a.
Arguments Throw {A} e.

#[export] Instance JsError_eq_dec : EqDecision JsError.
Proof. solve_decision. Defined.
#[export] Instance Exc_eq_dec {A} `{EqDecision A} : EqDecision (Exc A).
Proof. solve_decision. Defined.

(** Sequencing stops at the first throw; [x ← m; k] is stdpp's notation. *)
#[export] Instance exc_ret : MRet Exc := fun A a => Ok a.
#[export] Instance exc_bind : MBind Exc := fun A B k m =>
  match m with
  | Ok a => k a
  | Throw e => Throw e
  end.

(** [promise.catch(handler)] with a handler that returns a value. *)
Definition catchExc {A} (m : Exc A) (handler : JsError → A) : A :=
  match m with
  | Ok a => a
  | Throw e => handler e
  end.

(** ** String.prototype methods used by the sources *)

Fixpoint startsWith (s search : string) {struct search} : bool :=
  match search, s with
  | EmptyString, _ => true
  | String c search', String d s' => Ascii.eqb c d && startsWith s' search'
  | String _ _, EmptyString => false
  end.

Fixpoint includes (s search : string) : bool :=
  startsWith s search ||
  match s with
  | EmptyString => false
  | String _ s' => includes s' search
  end.

Fixpoint endsWith (s search : string) : bool :=
  String.eqb s search ||
  match s with
  | EmptyString => false
  | String _ s' => endsWith s' search
  end.

Fixpoint dropChars (n : nat) (s : string) : string :=
  match n, s with
  | O, _ => s
  | S n', String _ s' => dropChars n' s'
  | S _, EmptyString => EmptyString
  end.

(** [s.replace(pattern, '')] with a string pattern: the first occurrence of
    [pattern] is removed, the rest of [s] is kept. *)
Fixpoint replaceWithEmpty (s pattern : string) : string :=
  if startsWith s pattern then dropChars (String.length pattern) s
  else match s with
       | EmptyString => EmptyString
       | String c s' => String c (replaceWithEmpty s' pattern)
       end.

(** ** Regular expressions

    The regular-expression literals of the sources are written as terms of
    [regex] and run by a derivative matcher. *)

Inductive regex : Type :=
| Void
| Eps
| Class (p : ascii → bool)
| Seq (r1 r2 : regex)
| Alt (r1 r2 : regex)
| Star (r : regex).

Definition Plus (r : regex) : regex := Seq r (Star r).
Definition Opt (r : regex) : regex := Alt r Eps.
Definition Chr (c : ascii) : regex := Class (Ascii.eqb c).

Fixpoint Lit (s : string) : regex :=
  match s with
  | EmptyString => Eps
  | String c s' => Seq (Chr c) (Lit s')
  end.

Fixpoint nullable (r : regex) : bool :=
  match r with
  | Void => false
  | Eps => true
  | Class _ => false
  | Seq r1 r2 => nullable r1 && nullable r2
  | Alt r1 r2 => nullable r1 || nullable r2
  | Star _ => true
  end.

Fixpoint deriv (c : ascii) (r : regex) : regex :=
  match r with
  | Void => Void
  | Eps => Void
  | Class p => if p c then Eps else Void
  | Seq r1 r2 =>
      if nullable r1 then Alt (Seq (deriv c r1) r2) (deriv c r2)
      else Seq (deriv c r1) r2
  | Alt r1 r2 => Alt (deriv c r1) (deriv c r2)
  | Star r1 => Seq (deriv c r1) (Star r1)
  end.

(** The whole of [s] is a word of [r]. *)
Fixpoint matches (r : regex) (s : string) : bool :=
  match s with
  | EmptyString => nullable r
  | String c s' => matches (deriv c r) s'
  end.

(** The words of a regular expression. *)
Inductive lang : regex → string → Prop :=
| lang_eps : lang Eps ""
| lang_class p c : p c = true → lang (Class p) (String c "")
| lang_seq r1 r2 s1 s2 : lang r1 s1 → lang r2 s2 → lang (Seq r1 r2) (s1 +:+ s2)
| lang_alt_l r1 r2 s : lang r1 s → lang (Alt r1 r2) s
| lang_alt_r r1 r2 s : lang r2 s → lang (Alt r1 r2) s
| lang_star_nil r : lang (Star r) ""
| lang_star_cons r s1 s2 : lang r s1 → lang (Star r) s2 → lang (Star r) (s1 +:+ s2).

Definition anyChar : regex := Class (fun _ => true).

(** [/^r/.test(s)]: some prefix of [s] is a word of [r]. *)
Definition testAtStart (r : regex) (s : string) : bool :=
  matches (Seq r (Star anyChar)) s.

(** [/r/.test(s)], and the truth value of [s.match(/r/)]: some substring of
    [s] is a word of [r]. *)
Definition test (r : regex) (s : string) : bool :=
  matches (Seq (Star anyChar) (Seq r (Star anyChar))) s.

(** [/(r)$/.exec(s)?.[1]]: the engine tries the start positions from left to
    right and succeeds at the first one from which [r] reaches the end of the
    input; group 1 is then the rest of the input from that position. *)
Fixpoint execAtEnd (r : regex) (s : string) : option string :=
  if matches r s then Some s
  else match s with
       | EmptyString => None
       | String _ s' => execAtEnd r s'
       end.

(** Character classes. [\s] is given on the code units below 256: TAB, LF, VT,
    FF, CR, SPACE and the no-break space U+00A0. *)
Definition isSpace (c : ascii) : bool :=
  let n := nat_of_ascii c in
  (((9 <=? n) && (n <=? 13)) || (n =? 32) || (n =? 160))%nat.

(** [\w] is [A-Za-z0-9_]. *)
Definition isWord (c : ascii) : bool :=
  let n := nat_of_ascii c in
  (((65 <=? n) && (n <=? 90)) || ((97 <=? n) && (n <=? 122)) ||
   ((48 <=? n) && (n <=? 57)) || (n =? 95))%nat.

(** [[^\/\\]] *)
Definition notSeparator (c : ascii) : bool :=
  negb (Ascii.eqb c "/" || Ascii.eqb c "\").

Definition doubleQuote : ascii := "034".

(** Every character of [w] is in the class [p]. *)
Fixpoint allChars (p : ascii → bool) (w : string) : bool :=
  match w with
  | EmptyString => true
  | String c w' => p c && allChars p w'
  end.

(** ** The coverage model

    Modelled from the spec: the Istanbul coverage objects (the package
    [istanbul-lib-coverage] is not among the sources).  Section 3 of the
    spec: per source file a statement map (statement id to source range) with
    statement hit counts, a function map with hit counts, and a branch map
    with hit counts; a coverage map takes file paths to such records. *)

Record Position : Type := { line : N; column : N }.

Record Range : Type := { start : Position; end_ : Position }.

Record FnMeta : Type := { fnName : string; fnDecl : Range; fnLoc : Range }.

Record BranchMeta : Type :=
  { branchType : string; branchLoc : Range; branchLocations : list Range }.

Record FileCoverage : Type :=
  { path : string;
    statementMap : gmap string Range;
    statementHits : gmap string N;
    fnMap : gmap string FnMeta;
    fnHits : gmap string N;
    branchMap : gmap string BranchMeta;
    branchHits : gmap string (list N) }.

#[export] Instance Position_eq_dec : EqDecision Position.
Proof. solve_decision. Defined.
#[export] Instance Range_eq_dec : EqDecision Range.
Proof. solve_decision. Defined.
#[export] Instance FnMeta_eq_dec : EqDecision FnMeta.
Proof. solve_decision. Defined.
#[export] Instance BranchMeta_eq_dec : EqDecision BranchMeta.
Proof. solve_decision. Defined.

(** ** Configuration values read by the sources *)

(** A setting that is documented as [string | string[]] and may be unset. *)
Inductive Setting : Type :=
| Undefined
| Str (value : string)
| Arr (values : list string).

(** JavaScript truthiness: [undefined] and [''] are falsy, an array is truthy. *)
Definition truthy (v : Setting) : bool :=
  match v with
  | Undefined => false
  | Str value => negb (String.eqb value "")
  | Arr _ => true
  end.

(** [a || b] *)
Definition orElse (a b : Setting) : Setting := if truthy a then a else b.

(** What [Cypress.config(name)] returns for the two names that are read. *)
Record Config : Type := { specPattern : Setting; testFiles : Setting }.

(** [Cypress.env('codeCoverage')], with the options the modelled code reads
    ([CodeCoverageConfig] in support.js, and [exclude]). *)
Record CodeCoverageConfig : Type :=
  { api : Setting;
    expectBackendCoverageOnly : option bool;
    exclude : Setting }.

(** What [Cypress.env()] returns. *)
Record Env : Type := { codeCoverage : option CodeCoverageConfig }.

(** [Cypress.spec] *)
Record Spec : Type :=
  { absolute : string; relative : string; specType : option string }.

(** An element of the pattern array: [[testFilePattern]] wraps the setting as
    it is, so an unset spec pattern yields the one-element array
    [[undefined]]. *)
Inductive Pattern : Type :=
| PUndefined
| PString (p : string).

(** [ToString(pattern)], as [endsWith] applies it to its argument. *)
Definition patternToString (pattern : Pattern) : string :=
  match pattern with
  | PUndefined => "undefined"
  | PString p => p
  end.

(** ** lodash and Array helpers *)

(** [array.some(callback)]: left to right, stops at the first [true]; a throw
    of the callback propagates. *)
Fixpoint some {A} (callback : A → Exc bool) (array : list A) : Exc bool :=
  match array with
  | [] => Ok false
  | x :: rest =>
      found ← callback x;
      if found : bool then Ok true else some callback rest
  end.

(** [_.omitBy(object, predicate)]: the entries for which [predicate(value,
    key)] is falsy; a throw of the predicate propagates. *)
Definition omitBy {V} (object : gmap string V) (predicate : V → string → Exc bool)
  : Exc (gmap string V) :=
  map_fold
    (fun key value (rest : Exc (gmap string V)) =>
       omit ← predicate value key;
       kept ← rest;
       Ok (if omit : bool then kept else <[key := value]> kept))
    (Ok ∅) object.

(** [_.castArray(value ?? [])] *)
Definition castArray (value : Setting) : list string :=
  match value with
  | Undefined => []
  | Str v => [v]
  | Arr l => l
  end.

(** ** support-utils.js *)

(** [/([^\/\\]+)$/] *)
Definition reFileName : regex := Plus (Class notSeparator).

(** The literal [/\/external\s(\w|-)+\sQ/], where Q is the double-quote
    character. *)
Definition reExternal : regex :=
  Seq (Lit "/external")
    (Seq (Class isSpace)
       (Seq (Plus (Alt (Class isWord) (Chr "-")))
          (Seq (Class isSpace) (Chr doubleQuote)))).

(** The condition of the [if] in [filterExternalFromCoverage], on the string
    it is applied to. [fileName?.startsWith(..)] is [undefined], hence falsy,
    when the regular expression does not match. *)
Definition isExternal (filePath : string) : bool :=
  let fileName := execAtEnd reFileName filePath in
  match fileName with
  | Some name => startsWith name "webpack "
  | None => false
  end
  || includes filePath "/webpack/"
  || test reExternal filePath.

(** The three conditions in words, for comparison with [isExternal].
    [name] is the basename of [filePath]: the non-empty run of characters
    after the last [/] or [\]. *)
Definition basenameOf (filePath name : string) : Prop :=
  name ≠ "" ∧ allChars notSeparator name = true ∧
  ∃ dir, filePath = dir +:+ name ∧
         (dir = "" ∨ ∃ d sep, dir = d +:+ String sep "" ∧ notSeparator sep = false).

Definition basenameStartsWithWebpack (filePath : string) : Prop :=
  ∃ name rest, basenameOf filePath name ∧ name = "webpack " +:+ rest.

Definition containsWebpackSegment (filePath : string) : Prop :=
  ∃ before after, filePath = before +:+ "/webpack/" +:+ after.

Definition wordOrDash (c : ascii) : bool := isWord c || Ascii.eqb c "-".

(** [/external], one white-space character, a non-empty run of word
    characters and dashes, one white-space character, a double quote. *)
Definition namesExternalModule (filePath : string) : Prop :=
  ∃ before ws1 word ws2 after,
    filePath =
      before +:+ "/external" +:+
      String ws1 (word +:+ String ws2 (String doubleQuote after)) ∧
    isSpace ws1 = true ∧ word ≠ "" ∧ allChars wordOrDash word = true ∧
    isSpace ws2 = true.

Definition infrastructure (filePath : string) : Prop :=
  basenameStartsWithWebpack filePath ∨ containsWebpackSegment filePath ∨
  namesExternalModule filePath.

(** Lines 35-48 (the ES-module copy): the predicate looks at the key. *)
Definition filterExternalFromCoverage (totalCoverage : gmap string FileCoverage)
  : Exc (gmap string FileCoverage) :=
  omitBy totalCoverage (fun _ filePath =>
    if isExternal filePath then Ok true else Ok false).

(** Lines 122-143 (the CommonJS copy): the predicate looks at the [path]
    field of the value. *)
Definition filterExternalFromCoverage_cjs (totalCoverage : gmap string FileCoverage)
  : Exc (gmap string FileCoverage) :=
  omitBy totalCoverage (fun value filePath =>
    let absolutePath := path value in
    if isExternal absolutePath then Ok true else Ok false).

Definition getCypressExcludePatterns (config : Config) (env : Env) (spec : Spec)
  : list Pattern :=
  let testFilePattern := orElse (specPattern config) (testFiles config) in
  let excludePattern :=
    match codeCoverage env with
    | None => Undefined
    | Some cc => exclude cc
    end in
  let testFilePatterns :=
    match testFilePattern with
    | Arr l => PString <$> l
    | Str p => [PString p]
    | Undefined => [PUndefined]
    end in
  match excludePattern with
  | Arr l => testFilePatterns ++ (PString <$> l)
  | Str p => if truthy (Str p) then testFilePatterns ++ [PString p]
             else testFilePatterns
  | Undefined => testFilePatterns
  end.




Section Minimatch.

(** The glob matcher of the [minimatch] package on a string pattern; [None]
    stands for a pattern the package rejects with a [TypeError]. *)
Variable minimatch : string → string → option bool.

(** [Cypress.minimatch(filename, pattern, { debug: false })]. The package
    checks [typeof pattern === 'string'] first and throws a [TypeError]
    otherwise. *)
Definition Cypress_minimatch (filename : string) (pattern : Pattern) : Exc bool :=
  match pattern with
  | PUndefined => Throw TypeError
  | PString p =>
      match minimatch filename p with
      | Some matched => Ok matched
      | None => Throw TypeError
      end
  end.

(** The closure [isTestFile] of [filterSpecsFromCoverage]. *)
Definition isTestFile (testFilePatterns : list Pattern) (spec : Spec)
    (filePath : string) : Exc bool :=
  let workingDir := replaceWithEmpty (absolute spec) (relative spec) in
  let filename := replaceWithEmpty filePath workingDir in
  matchedPattern ←
    some (fun specPattern => Cypress_minimatch filename specPattern)
      testFilePatterns;
  matchedEndOfPath ←
    some (fun specPattern => Ok (endsWith filename (patternToString specPattern)))
      testFilePatterns;
  Ok (matchedPattern || matchedEndOfPath).

Definition filterSpecsFromCoverage (totalCoverage : gmap string FileCoverage)
    (config : Config) (env : Env) (spec : Spec) : Exc (gmap string FileCoverage) :=
  let testFilePatterns := getCypressExcludePatterns config env spec in
  omitBy totalCoverage (fun _ filePath => isTestFile testFilePatterns spec filePath).

(** Lines 21-30. *)
Definition filterFilesFromCoverage (totalCoverage : gmap string FileCoverage)
    (config : Config) (env : Env) (spec : Spec) : Exc (gmap string FileCoverage) :=
  totalCoverage ← filterSpecsFromCoverage totalCoverage config env spec;
  totalCoverage ← filterExternalFromCoverage totalCoverage;
  Ok totalCoverage.

(** Lines 111-120, calling the CommonJS copy of the second pass. *)
Definition filterFilesFromCoverage_cjs (totalCoverage : gmap string FileCoverage)
    (config : Config) (env : Env) (spec : Spec) : Exc (gmap string FileCoverage) :=
  totalCoverage ← filterSpecsFromCoverage totalCoverage config env spec;
  totalCoverage ← filterExternalFromCoverage_cjs totalCoverage;
  Ok totalCoverage.

End Minimatch.

(** ** Merging coverage maps

    Modelled from the spec: [createCoverageMap] and [CoverageMap.merge] of
    [istanbul-lib-coverage], which is not among the sources.  Section 4.4:
    for each file of the incoming fragment, if it is absent from the
    accumulator it is inserted verbatim; if it is present, the counters are
    summed per statement, branch and function id.  Where the structural maps
    of the two sides differ, the incoming structural map is authoritative for
    the ids the accumulator has not seen, only matching ids are summed, and
    a mismatched id is dropped from the incoming side so that the existing
    count is never corrupted. *)

Section MergeCounters.

Context {M H : Type} `{EqDecision M}.
Variable add : H → H → H.

(** A counter together with the structural entry recorded for its id. *)
Definition tagHits (structure : gmap string M) (hits : gmap string H)
  : gmap string (option M * H) :=
  map_imap (fun id h => Some (structure !! id, h)) hits.

Definition mergeHit (acc inc : option (option M * H)) : option H :=
  match acc, inc with
  | Some (accEntry, accHit), Some (incEntry, incHit) =>
      if decide (accEntry = incEntry) then Some (add accHit incHit)
      else Some accHit
  | Some (_, accHit), None => Some accHit
  | None, Some (_, incHit) => Some incHit
  | None, None => None
  end.

Definition mergeHits (accMap : gmap string M) (accHits : gmap string H)
    (incMap : gmap string M) (incHits : gmap string H) : gmap string H :=
  merge mergeHit (tagHits accMap accHits) (tagHits incMap incHits).

End MergeCounters.

(** Element-wise sum of the counters of the arms of one branch. *)
Fixpoint addBranchHits (acc inc : list N) : list N :=
  match acc, inc with
  | x :: acc', y :: inc' => (x + y)%N :: addBranchHits acc' inc'
  | [], _ => inc
  | _, [] => acc
  end.

Definition mergeFileCoverage (acc inc : FileCoverage) : FileCoverage :=
  {| path := path acc;
     statementMap := statementMap acc ∪ statementMap inc;
     statementHits :=
       mergeHits N.add (statementMap acc) (statementHits acc)
         (statementMap inc) (statementHits inc);
     fnMap := fnMap acc ∪ fnMap inc;
     fnHits := mergeHits N.add (fnMap acc) (fnHits acc) (fnMap inc) (fnHits inc);
     branchMap := branchMap acc ∪ branchMap inc;
     branchHits :=
       mergeHits addBranchHits (branchMap acc) (branchHits acc)
         (branchMap inc) (branchHits inc) |}.

Definition createCoverageMap : gmap string FileCoverage := ∅.

Definition mergeCoverageMap (accumulated incoming : gmap string FileCoverage)
  : gmap string FileCoverage :=
  union_with (fun acc inc => Some (mergeFileCoverage acc inc)) accumulated incoming.

(** The structural maps of two records of one file are identical. *)
Definition sameStructure (x y : FileCoverage) : Prop :=
  path x = path y ∧ statementMap x = statementMap y ∧
  fnMap x = fnMap y ∧ branchMap x = branchMap y.

(** Two fragments agree on the structure of every file they share. *)
Definition consistent (A B : gmap string FileCoverage) : Prop :=
  ∀ file x y, A !! file = Some x → B !! file = Some y → sameStructure x y.

(** ** v8ToIstanbul.js *)

(** The records of [Profiler.takePreciseCoverage]. *)
Record CoverageRange : Type :=
  { startOffset : N; endOffset : N; count : N }.

Record FunctionCoverage : Type :=
  { functionName : string; ranges : list CoverageRange; isBlockCoverage : bool }.

Record ScriptCoverage : Type :=
  { scriptId : string; url : string; functions : list FunctionCoverage }.

Record ProfileCoverage : Type := { result : list ScriptCoverage }.

(** The object handed to [saveDebugFile]. *)
Record DebugPayload : Type :=
  { debugCoverage : list ScriptCoverage;
    debugResult : gmap string FileCoverage }.

(** What the module imports and does not define: the source resolver
    [getSources] of [./sourceMap], the converter of the package
    [v8-to-istanbul] (construction, [load], [applyCoverage] and [toIstanbul]
    taken together), [exists] and [cacheDir] of [./common-utils], the [fs]
    functions, [path.join] and [slugify].  The resolver's cache argument is
    scoped to one batch and is part of the resolver. *)
Record Imports : Type :=
  { SourcesT : Type;
    getSources : string → gmap string string → Exc (option (string * SourcesT));
    v8toIstanbul :
      string → SourcesT → (string → bool) → list FunctionCoverage →
      Exc (gmap string FileCoverage);
    exists_ : string → Exc bool;
    mkdir : string → Exc unit;
    writeFile : string → DebugPayload → Exc unit;
    pathJoin : string → string → string;
    slugify : string → string;
    cacheDir : string;
    debugDir : string }.

(** The callback given to the converter (lines 37-46). *)
Definition excludePath (path : string) : bool :=
  if includes path "/node_modules/" ||
     includes path "/__cypress/" ||
     includes path "/__/assets/"
  then true else false.

(** [/^file:/] and [/^https?:/] *)
Definition reFile : regex := Lit "file:".
Definition reHttps : regex := Seq (Lit "http") (Seq (Opt (Chr "s")) (Chr ":")).

(** The callback of [cov.result.filter] (lines 72-86). *)
Definition keepScript (obj : ScriptCoverage) : bool :=
  if negb (testAtStart reFile (url obj)) && negb (testAtStart reHttps (url obj))
  then false
  else if includes (url obj) "/node_modules/" ||
          includes (url obj) "/__cypress/" ||
          includes (url obj) "/__/assets/"
  then false
  else true.

Section Converter.

Variable imports : Imports.

Definition saveDebugFile (payload : DebugPayload) (name : string) : Exc unit :=
  present ← exists_ imports (debugDir imports);
  _ ← (if present : bool then Ok tt else mkdir imports (debugDir imports));
  _ ← writeFile imports (pathJoin imports (debugDir imports) (slugify imports name +:+ ".json")) payload;
  Ok tt.

(** [null] is [None]. *)
Definition convertToIstanbul (obj : ScriptCoverage) (clientRoots : gmap string string)
  : Exc (option (gmap string FileCoverage)) :=
  res ← getSources imports (url obj) clientRoots;
  match res with
  | None => Ok None
  | Some (filePath, sources) =>
      coverage ← v8toIstanbul imports filePath sources excludePath (functions obj);
      Ok (Some coverage)
  end.

(** Lines 89-98: every conversion carries its own [catch], so the array of
    [Promise.all] has one entry per kept script, [null] for a failure. *)
Definition convertAll (scripts : list ScriptCoverage) (clientRoots : gmap string string)
  : list (option (gmap string FileCoverage)) :=
  map (fun obj => catchExc (convertToIstanbul obj clientRoots) (fun _ => None))
    scripts.

(** Lines 100-108: the [reduce] that merges the non-null entries in order. *)
Definition mergeAll (coverages : list (option (gmap string FileCoverage)))
  : gmap string FileCoverage :=
  fold_left
    (fun map coverage =>
       match coverage with
       | Some fragment => mergeCoverageMap map fragment
       | None => map
       end)
    coverages createCoverageMap.

Definition convertProfileCoverageToIstanbul (cov : ProfileCoverage)
    (comment : string) (clientRoots : gmap string string)
  : Exc (gmap string FileCoverage) :=
  present ← exists_ imports (cacheDir imports);
  _ ← (if present : bool then Ok tt else mkdir imports (cacheDir imports));
  let filteredCoverage := List.filter keepScript (result cov) in
  let coverages := convertAll filteredCoverage clientRoots in
  let result := mergeAll coverages in
  _ ← saveDebugFile
        {| debugCoverage := filteredCoverage; debugResult := result |} comment;
  Ok result.

End Converter.

(** The directory [dir] is there, or can be made. *)
Definition directoryReady (imports : Imports) (dir : string) : Prop :=
  exists_ imports dir = Ok true ∨
  (exists_ imports dir = Ok false ∧ mkdir imports dir = Ok tt).

(** The file-system steps of one conversion succeed: the cache directory and
    the debug directory are ready and the debug dump can be written. *)
Definition fileSystemWorks (imports : Imports) (comment : string) : Prop :=
  directoryReady imports (cacheDir imports) ∧
  directoryReady imports (debugDir imports) ∧
  ∀ payload,
    writeFile imports
      (pathJoin imports (debugDir imports) (slugify imports comment +:+ ".json"))
      payload = Ok tt.

(** The converter honours its exclusion callback: it reports no file for
    which the callback answers [true]. *)
Definition converterHonoursExclusion (imports : Imports) : Prop :=
  ∀ filePath sources exclude functions fragment key,
    v8toIstanbul imports filePath sources exclude functions = Ok fragment →
    is_Some (fragment !! key) → exclude key = false.

(** ** support.js: the end-of-run backend collection *)

(** [CoverageHostConfig] *)
Record CoverageHostConfig : Type :=
  { hostUrl : string; hostComment : string; hostProjectRoot : option string }.

(** What [cy.request] yields, as far as the hook reads it: [body.coverage],
    when the body has it, is a coverage map. *)
Record Response : Type :=
  { status : N; bodyCoverage : option (gmap string FileCoverage) }.

(** The argument of one [cy.task('combineCoverage', ..)]. *)
Record CombineCoverage : Type :=
  { taskProjectRoot : option string; taskCoverage : gmap string FileCoverage }.

Definition expectedMessage (url : string) : string :=
  "Expected to collect backend code coverage from " +:+ url.

Section Support.

Variable minimatch : string → string → option bool.
(** The globals [Cypress.config], [Cypress.env()], [Cypress.spec] and
    [Cypress.testingType], and the servers behind [cy.request]. *)
Variable config : Config.
Variable env : Env.
Variable spec : Spec.
Variable testingType : string.
Variable request : string → Response.

(** [Cypress.env('codeCoverage') || {}] *)
Definition codeCoverageConfig : CodeCoverageConfig :=
  match codeCoverage env with
  | Some cc => cc
  | None => {| api := Undefined; expectBackendCoverageOnly := None;
               exclude := Undefined |}
  end.

(** The state is the list of [combineCoverage] tasks issued so far. A throw
    of the filter leaves it unchanged. *)
Definition sendCoverage (coverage : gmap string FileCoverage) (comment : string)
    (projectRoot : option string) (tasks : list CombineCoverage)
  : list CombineCoverage * Exc unit :=
  match filterFilesFromCoverage minimatch coverage config env spec with
  | Ok totalCoverage =>
      ((tasks ++ [{| taskProjectRoot := projectRoot;
                     taskCoverage := totalCoverage |}])%list, Ok tt)
  | Throw e => (tasks, Throw e)
  end.

(** The promise built for one host (lines 204-242).  [request] gives the
    answer to a request that Cypress completes; a request that fails ends
    the hook inside Cypress and has no counterpart here.  A throw of the
    filter in the command callback is recorded as the outcome of the host. *)
Definition collectHost (hostConfig : CoverageHostConfig)
    (tasks : list CombineCoverage) : list CombineCoverage * Exc unit :=
  let url := hostUrl hostConfig in
  let coverage := bodyCoverage (request url) in
  match coverage with
  | Some coverage =>
      sendCoverage coverage (hostComment hostConfig) (hostProjectRoot hostConfig)
        tasks
  | None =>
      let expectBackendCoverageOnly :=
        default false (expectBackendCoverageOnly codeCoverageConfig) in
      if expectBackendCoverageOnly
      then (tasks, Throw (Error (expectedMessage url)))
      else (tasks, Ok tt)
  end.

(** [Cypress.Promise.mapSeries]: one item after the other, the first
    rejection ends the series. *)
Fixpoint mapSeries {A} (mapper : A → list CombineCoverage → list CombineCoverage * Exc unit)
    (items : list A) (tasks : list CombineCoverage)
  : list CombineCoverage * Exc unit :=
  match items with
  | [] => (tasks, Ok tt)
  | item :: rest =>
      match mapper item tasks with
      | (tasks', Ok _) => mapSeries mapper rest tasks'
      | (tasks', Throw e) => (tasks', Throw e)
      end
  end.

Definition finalHostConfigs (hostObjects : list CoverageHostConfig)
  : list CoverageHostConfig :=
  let backendUrls := castArray (api codeCoverageConfig) in
  (map (fun url => {| hostUrl := url; hostProjectRoot := None;
                      hostComment := "backend - " +:+ url |}) backendUrls
   ++ hostObjects)%list.

(** The [after] hook (lines 173-244). *)
Definition collectBackendCoverage (hostObjects : list CoverageHostConfig)
    (tasks : list CombineCoverage) : list CombineCoverage * Exc unit :=
  let runningEndToEndTests := String.eqb testingType "e2e" in
  let specType := default "integration" (specType spec) in
  let isIntegrationSpec := String.eqb specType "integration" in
  if negb runningEndToEndTests || negb isIntegrationSpec
  then (tasks, Ok tt)
  else mapSeries collectHost (finalHostConfigs hostObjects) tasks.

End Support.

(** ** Example data

    A reference glob matcher for the fragment of the glob syntax made of
    literal characters, [?], [*] inside a path segment and [**] as a whole
    segment.  It instantiates [minimatch] in the examples. *)

(** [s.split(sep)] *)
Fixpoint splitOn (sep : ascii) (s : string) : list string :=
  match s with
  | EmptyString => [EmptyString]
  | String c s' =>
      if Ascii.eqb c sep then EmptyString :: splitOn sep s'
      else match splitOn sep s' with
           | segment :: rest => String c segment :: rest
           | [] => [String c EmptyString]
           end
  end.

Fixpoint globSegment (pattern : string) : string → bool :=
  fix go (name : string) : bool :=
    match pattern with
    | EmptyString => match name with EmptyString => true | _ => false end
    | String c pattern' =>
        if Ascii.eqb c "*" then
          globSegment pattern' name ||
          match name with
          | EmptyString => false
          | String _ name' => go name'
          end
        else
          match name with
          | EmptyString => false
          | String d name' =>
              (Ascii.eqb c "?" || Ascii.eqb c d) && globSegment pattern' name'
          end
    end.

Fixpoint globSegments (patterns : list string) : list string → bool :=
  fix go (names : list string) : bool :=
    match patterns with
    | [] => match names with [] => true | _ => false end
    | p :: patterns' =>
        if String.eqb p "**" then
          globSegments patterns' names ||
          match names with
          | [] => false
          | _ :: names' => go names'
          end
        else
          match names with
          | [] => false
          | name :: names' => globSegment p name && globSegments patterns' names'
          end
    end.

Definition globMatch (filename pattern : string) : option bool :=
  Some (globSegments (splitOn "/" pattern) (splitOn "/" filename)).

Definition exampleRange (fromLine toLine : N) : Range :=
  {| start := {| line := fromLine; column := 0 |};
     end_ := {| line := toLine; column := 0 |} |}.

(** A file with one statement, on lines [fromLine] to [toLine], hit [hits]
    times. *)
Definition exampleFile (filePath : string) (fromLine toLine hits : N) : FileCoverage :=
  {| path := filePath;
     statementMap := {[ "0" := exampleRange fromLine toLine ]};
     statementHits := {[ "0" := hits ]};
     fnMap := ∅; fnHits := ∅; branchMap := ∅; branchHits := ∅ |}.

Definition exampleSpec : Spec :=
  {| absolute := "/app/cypress/e2e/login.cy.js";
     relative := "cypress/e2e/login.cy.js";
     specType := None |}.

Definition exampleConfig : Config :=
  {| specPattern := Str "cypress/e2e/**/*.cy.js"; testFiles := Undefined |}.

(** No spec pattern is set. *)
Definition unsetConfig : Config :=
  {| specPattern := Undefined; testFiles := Undefined |}.

Definition noEnv : Env := {| codeCoverage := None |}.

Definition excludeEnv : Env :=
  {| codeCoverage :=
       Some {| api := Undefined; expectBackendCoverageOnly := None;
               exclude := Arr ["**/*.spec.js"] |} |}.

Definition exampleCoverage : gmap string FileCoverage :=
  {[ "/app/src/foo.js" := exampleFile "/app/src/foo.js" 1 3 2;
     "/app/test/foo.spec.js" := exampleFile "/app/test/foo.spec.js" 1 9 1;
     "/app/webpack/bootstrap" := exampleFile "/app/webpack/bootstrap" 1 5 4 ]}.

(** One bundler-synthetic entry. *)
Definition webpackCoverage : gmap string FileCoverage :=
  {[ "/app/webpack/bootstrap" := exampleFile "/app/webpack/bootstrap" 1 5 4 ]}.

(** One application file. *)
Definition sourceCoverage : gmap string FileCoverage :=
  {[ "/app/src/foo.js" := exampleFile "/app/src/foo.js" 1 3 2 ]}.

(** Two records of one file whose statement ranges differ. *)
Definition skewedA : gmap string FileCoverage :=
  {[ "/app/src/foo.js" := exampleFile "/app/src/foo.js" 1 3 1 ]}.
Definition skewedB : gmap string FileCoverage :=
  {[ "/app/src/foo.js" := exampleFile "/app/src/foo.js" 1 4 2 ]}.

(** Two fragments that share a file and agree on its structure. *)
Definition fragmentA : gmap string FileCoverage :=
  {[ "/app/src/foo.js" := exampleFile "/app/src/foo.js" 1 3 1 ]}.
Definition fragmentB : gmap string FileCoverage :=
  {[ "/app/src/foo.js" := exampleFile "/app/src/foo.js" 1 3 2;
     "/app/src/bar.js" := exampleFile "/app/src/bar.js" 2 6 7 ]}.

(** A resolver and a converter for the examples: an origin under
    [/missing/] resolves to [null], one under [/broken/] makes the resolver
    throw, any other origin on [http://localhost:3000] resolves to the file of
    that path under [/app]; the converter reports the resolved file with one
    statement, unless the exclusion callback accepts its path. *)
Definition exampleImports : Imports :=
  {| SourcesT := unit;
     getSources := fun url _ =>
       if includes url "/missing/" then Ok None
       else if includes url "/broken/" then Throw (Error "ENOENT")
       else Ok (Some ("/app" +:+ replaceWithEmpty url "http://localhost:3000", tt));
     v8toIstanbul := fun filePath _ exclude functions =>
       Ok (if exclude filePath : bool then ∅
           else {[ filePath :=
                     exampleFile filePath 1 1 (N.of_nat (length functions)) ]});
     exists_ := fun _ => Ok true;
     mkdir := fun _ => Ok tt;
     writeFile := fun _ _ => Ok tt;
     pathJoin := fun dir name => dir +:+ "/" +:+ name;
     slugify := fun name => name;
     cacheDir := "/app/.cache";
     debugDir := "/app/.cache/_debug" |}.

Definition exampleScript (origin : string) : ScriptCoverage :=
  {| scriptId := "1"; url := origin;
     functions := [{| functionName := "main";
                      ranges := [{| startOffset := 0; endOffset := 10; count := 1 |}];
                      isBlockCoverage := true |}] |}.

(** Two backends; the first answers with coverage, the second without. *)
Definition exampleRequest (url : string) : Response :=
  if String.eqb url "http://localhost:3000/__coverage__"
  then {| status := 200; bodyCoverage := Some sourceCoverage |}
  else {| status := 200; bodyCoverage := None |}.

(** Backend coverage is declared mandatory. *)
Definition mandatoryEnv : Env :=
  {| codeCoverage :=
       Some {| api := Arr ["http://localhost:3000/__coverage__";
                           "http://localhost:4000/__coverage__"];
               expectBackendCoverageOnly := Some true;
               exclude := Undefined |} |}.

(** ** support.js: the hosts saved for server-side rendering *)

(** [win.location], as far as [saveHost] reads it. *)
Record Location : Type := { protocol : string; host : string }.

(** The closure [saveHost] of the [before] hook (lines 99-120), over
    [clientRoots] and [ssrCoveragePath]; the state is [hostObjects].  [win] is
    [None] when the window or its location is missing, and an empty [host] is
    falsy.  [clientRoots[..] ?? null] is the lookup itself. *)
Definition saveHost (clientRoots : gmap string string) (ssrCoveragePath : string)
    (win : option Location) (hostObjects : list CoverageHostConfig)
  : list CoverageHostConfig :=
  match win with
  | None => hostObjects
  | Some location =>
      if String.eqb (host location) "" then hostObjects
      else
        let url := protocol location +:+ "//" +:+ host location +:+ ssrCoveragePath in
        let existingHost :=
          List.find (fun saved => String.eqb (hostUrl saved) url) hostObjects in
        match existingHost with
        | Some _ => hostObjects
        | None =>
            let projectRoot :=
              clientRoots !! (protocol location +:+ "//" +:+ host location) in
            (hostObjects ++
             [{| hostUrl := url;
                 hostProjectRoot := projectRoot;
                 hostComment := "ssr - " +:+ host location |}])%list
        end
  end.

(** The [before] hook as far as [hostObjects] goes (lines 68-127).  The list
    is emptied first.  [ssr] is [codeCoverageConfig.ssr], [None] when it is
    undefined: without a path, or with the empty one, the hook returns before
    [saveHost] is registered and no window is saved.  Otherwise [saveHost]
    runs on every window handed to it, one after the other. *)
Definition savedHosts (clientRoots : gmap string string) (ssr : option string)
    (windows : list (option Location)) : list CoverageHostConfig :=
  let hostObjects := [] in
  match ssr with
  | None => hostObjects
  | Some ssrCoveragePath =>
      if String.eqb ssrCoveragePath "" then hostObjects
      else
        fold_left
          (fun hostObjects win => saveHost clientRoots ssrCoveragePath win hostObjects)
          windows hostObjects
  end.

Definition exampleWindows : list (option Location) :=
  [Some {| protocol := "http:"; host := "localhost:3000" |};
   None;
   Some {| protocol := "http:"; host := "localhost:4000" |};
   Some {| protocol := "http:"; host := "localhost:3000" |};
   Some {| protocol := "about:"; host := "" |}].

(** An exclude list that holds the empty string. *)
Definition emptyPatternEnv : Env :=
  {| codeCoverage :=
       Some {| api := Undefined; expectBackendCoverageOnly := None;
               exclude := Arr [""] |} |}.

(** A file system whose debug dump cannot be written. *)
Definition readOnlyImports : Imports :=
  {| SourcesT := SourcesT exampleImports;
     getSources := getSources exampleImports;
     v8toIstanbul := v8toIstanbul exampleImports;
     exists_ := exists_ exampleImports;
     mkdir := mkdir exampleImports;
     writeFile := fun _ _ => Throw (Error "EROFS");
     pathJoin := pathJoin exampleImports;
     slugify := slugify exampleImports;
     cacheDir := cacheDir exampleImports;
     debugDir := debugDir exampleImports |}.

(** A backend that answers with coverage, declared mandatory. *)
Definition answeringEnv : Env :=
  {| codeCoverage :=
       Some {| api := Str "http://localhost:3000/__coverage__";
               expectBackendCoverageOnly := Some true;
               exclude := Undefined |} |}.

(** ** support.js: the switch at the end of the file (lines 262-287) *)

(** A value of the object that [Cypress.env()] returns.  A value that is
    neither a boolean nor a string is given by what [String(value)] renders. *)
Inductive EnvValue : Type :=
| EUndefined
| ENull
| EBoolean (b : bool)
| EString (text : string)
| EOther (rendering : string).

(** [String(value)] *)
Definition toString (value : EnvValue) : string :=
  match value with
  | EUndefined => "undefined"
  | ENull => "null"
  | EBoolean true => "true"
  | EBoolean false => "false"
  | EString text => text
  | EOther rendering => rendering
  end.

(** [toLowerCase] on a code unit below 256: the letters A-Z and the
    upper-case letters of Latin-1, U+00C0 to U+00DE without the
    multiplication sign U+00D7, move up by 32. *)
Definition lowerChar (c : ascii) : ascii :=
  let n := nat_of_ascii c in
  if (((65 <=? n) && (n <=? 90)) ||
      ((192 <=? n) && (n <=? 222) && negb (n =? 215)))%nat
  then ascii_of_nat (n + 32)
  else c.

Fixpoint toLowerCase (w : string) : string :=
  match w with
  | EmptyString => EmptyString
  | String c w' => String (lowerChar c) (toLowerCase w')
  end.

(** [Cypress._.mapKeys(object, (value, key) => key.toLowerCase())]; the
    object is given by its entries in enumeration order, and an entry
    overwrites an earlier one that maps to the same key. *)
Definition mapKeysToLowerCase (object : list (string * EnvValue))
  : gmap string EnvValue :=
  fold_left (fun result entry => <[toLowerCase entry.1 := entry.2]> result) object ∅.

(** [Cypress.env(key)]: the value of the property, [undefined] without it. *)
Definition getEnv (object : list (string * EnvValue)) (key : string) : EnvValue :=
  match List.find (fun entry => String.eqb entry.1 key) object with
  | Some entry => entry.2
  | None => EUndefined
  end.

(** What the support file does when it is loaded. *)
Inductive Setup : Type :=
| SkipHooks
| WarnTasksNotRegistered
| RegisterHooks.

Definition supportFile (cypressEnv : list (string * EnvValue)) : Setup :=
  let cyEnvs := mapKeysToLowerCase cypressEnv in
  if negb (String.eqb (toString (default EUndefined (cyEnvs !! "coverage"))) "true")
  then SkipHooks
  else
    match getEnv cypressEnv "codeCoverageTasksRegistered" with
    | EBoolean true => RegisterHooks
    | _ => WarnTasksNotRegistered
    end.

Definition exampleCypressEnv : list (string * EnvValue) :=
  [("coverage", EBoolean false);
   ("codeCoverageTasksRegistered", EBoolean true);
   ("codeCoverage", EOther "[object Object]")].

(** ** Further example data *)



(** A bundle served from a URL that names no excluded segment and whose
    source resolves to a file under [/node_modules/].  The converter of
    [bundleImports] is the one of [exampleImports], which reports no file
    that its callback accepts; the converter of [reportingImports] consults
    no callback and reports every file it is given. *)
Definition bundleScript : ScriptCoverage :=
  exampleScript "http://localhost:3000/static/vendor.js".

Definition bundleImports : Imports :=
  {| SourcesT := SourcesT exampleImports;
     getSources := fun url clientRoots =>
       if String.eqb url "http://localhost:3000/static/vendor.js"
       then Ok (Some ("/app/node_modules/react/index.js", tt))
       else getSources exampleImports url clientRoots;
     v8toIstanbul := v8toIstanbul exampleImports;
     exists_ := exists_ exampleImports;
     mkdir := mkdir exampleImports;
     writeFile := writeFile exampleImports;
     pathJoin := pathJoin exampleImports;
     slugify := slugify exampleImports;
     cacheDir := cacheDir exampleImports;
     debugDir := debugDir exampleImports |}.

Definition reportingImports : Imports :=
  {| SourcesT := SourcesT bundleImports;
     getSources := getSources bundleImports;
     v8toIstanbul := fun filePath _ _ functions =>
       Ok {[ filePath := exampleFile filePath 1 1 (N.of_nat (length functions)) ]};
     exists_ := exists_ bundleImports;
     mkdir := mkdir bundleImports;
     writeFile := writeFile bundleImports;
     pathJoin := pathJoin bundleImports;
     slugify := slugify bundleImports;
     cacheDir := cacheDir bundleImports;
     debugDir := debugDir bundleImports |}.

(* ===================================================================== *)
(** * Part II. Properties                                                 *)
(* ===================================================================== *)

Local Open Scope list_scope.

(** ** Strings *)

Lemma append_assoc (a b c : string) : (a +:+ b) +:+ c = a +:+ (b +:+ c).
Proof. induction a as [|x a IH]; simpl; [done | by rewrite IH]. Qed.

Lemma append_empty_r (a : string) : a +:+ "" = a.
Proof. induction a as [|x a IH]; simpl; [done | by rewrite IH]. Qed.

Lemma startsWith_spec (s search : string) :
  startsWith s search = true ↔ ∃ rest, s = search +:+ rest.
Proof.
  revert s. induction search as [|c search IH]; intros s; simpl.
  - split; [intros _; by exists s | done].
  - destruct s as [|d s]; simpl.
    + split; [done | intros [rest Hr]; discriminate].
    + rewrite andb_true_iff, IH. split.
      * intros [Hc [rest ->]]. apply Ascii.eqb_eq in Hc as ->. by exists rest.
      * intros [rest Hr]. injection Hr as -> ->.
        split; [apply Ascii.eqb_refl | by exists rest].
Qed.

Lemma includes_spec (s search : string) :
  includes s search = true ↔ ∃ before after, s = before +:+ search +:+ after.
Proof.
  induction s as [|c s IH]; simpl; rewrite orb_true_iff, startsWith_spec.
  - split.
    + intros [[rest Hr] | ?]; [|done]. by exists "", rest.
    + intros ([|x before] & after & Hs); [left; by exists after | discriminate].
  - rewrite IH. split.
    + intros [[rest Hr] | (before & after & ->)].
      * by exists "", rest.
      * by exists (String c before), after.
    + intros ([|x before] & after & Hs).
      * left. by exists after.
      * right. injection Hs as -> ->. by exists before, after.
Qed.

Lemma endsWith_spec (s search : string) :
  endsWith s search = true ↔ ∃ before, s = before +:+ search.
Proof.
  induction s as [|c s IH]; cbn [endsWith]; rewrite orb_true_iff, String.eqb_eq.
  - split.
    + intros [<- | ?]; [by exists "" | done].
    + intros ([|x before] & Hs); [by left | discriminate].
  - rewrite IH. split.
    + intros [<- | [before ->]]; [by exists "" | by exists (String c before)].
    + intros ([|x before] & Hs); [by left|].
      right. injection Hs as -> ->. by exists before.
Qed.

(** ** [String.replace] with a string pattern *)

Lemma replaceWithEmpty_unfold (w pattern : string) :
  replaceWithEmpty w pattern =
    if startsWith w pattern then dropChars (String.length pattern) w
    else match w with
         | EmptyString => EmptyString
         | String c w' => String c (replaceWithEmpty w' pattern)
         end.
Proof. by destruct w. Qed.

Lemma dropChars_app (pattern rest : string) :
  dropChars (String.length pattern) (pattern +:+ rest) = rest.
Proof. induction pattern as [|c pattern IH]; simpl; [by destruct rest | done]. Qed.

(** The first occurrence is the one that is removed. *)
Lemma replaceWithEmpty_first (before pattern after : string) :
  (∀ before' after', before +:+ pattern +:+ after = before' +:+ pattern +:+ after' →
                     (String.length before ≤ String.length before')%nat) →
  replaceWithEmpty (before +:+ pattern +:+ after) pattern = before +:+ after.
Proof.
  induction before as [|c before IH]; intros Hfirst.
  - simpl. rewrite replaceWithEmpty_unfold.
    assert (startsWith (pattern +:+ after) pattern = true) as ->
      by (apply startsWith_spec; by exists after).
    apply dropChars_app.
  - change (String c before +:+ pattern +:+ after)
      with (String c (before +:+ pattern +:+ after)) in *.
    rewrite replaceWithEmpty_unfold.
    destruct (startsWith (String c (before +:+ pattern +:+ after)) pattern) eqn:Hs.
    + apply startsWith_spec in Hs as [after' Hs].
      specialize (Hfirst "" after' Hs). simpl in Hfirst. lia.
    + simpl. f_equal. apply IH. intros before' after' Heq.
      specialize (Hfirst (String c before') after'). simpl in Hfirst.
      rewrite Heq in Hfirst. specialize (Hfirst eq_refl). lia.
Qed.

Lemma replaceWithEmpty_prefix (pattern rest : string) :
  replaceWithEmpty (pattern +:+ rest) pattern = rest.
Proof.
  apply (replaceWithEmpty_first "" pattern rest). intros; simpl; lia.
Qed.

Lemma replaceWithEmpty_absent (w pattern : string) :
  includes w pattern = false → replaceWithEmpty w pattern = w.
Proof.
  induction w as [|c w IH]; cbn [includes]; intros H;
    apply orb_false_iff in H as [Hs Hrest];
    rewrite replaceWithEmpty_unfold, Hs; [done|].
  f_equal. by apply IH.
Qed.


(** ** Regular expressions: the matcher decides the language *)

Lemma nullable_spec (r : regex) : nullable r = true ↔ lang r "".
Proof.
  induction r as [| |p|r1 IH1 r2 IH2|r1 IH1 r2 IH2|r IH]; simpl.
  - split; [done | inversion 1].
  - split; [constructor | done].
  - split; [done | inversion 1].
  - rewrite andb_true_iff, IH1, IH2. split.
    + intros [H1 H2]. apply (lang_seq _ _ "" "" H1 H2).
    + inversion 1 as [| |? ? s1 s2 H1 H2 E1 E2| | | |]; subst.
      destruct s1; [|discriminate]. simpl in E2. by subst.
  - rewrite orb_true_iff, IH1, IH2. split.
    + intros [?|?]; [by apply lang_alt_l | by apply lang_alt_r].
    + inversion 1; subst; tauto.
  - split; [constructor | done].
Qed.

Lemma lang_star_inv (r : regex) (w : string) :
  lang (Star r) w →
  w = "" ∨ ∃ c s1 s2, w = String c (s1 +:+ s2) ∧ lang r (String c s1) ∧ lang (Star r) s2.
Proof.
  intros H. remember (Star r) as r' eqn:Hr.
  induction H as [| | | | | |r0 s1 s2 H1 _ H2 IH2]; try discriminate.
  - by left.
  - injection Hr as ->. destruct s1 as [|c s1]; simpl.
    + by apply IH2.
    + right. by exists c, s1, s2.
Qed.

Lemma deriv_spec (c : ascii) (r : regex) (w : string) :
  lang (deriv c r) w ↔ lang r (String c w).
Proof.
  revert w. induction r as [| |p|r1 IH1 r2 IH2|r1 IH1 r2 IH2|r IH]; intros w; simpl.
  - split; inversion 1.
  - split; inversion 1.
  - destruct (p c) eqn:Hp; split.
    + inversion 1; subst. by constructor.
    + inversion 1; subst. constructor.
    + inversion 1.
    + inversion 1; subst. congruence.
  - assert (Hseq : lang (Seq (deriv c r1) r2) w → lang (Seq r1 r2) (String c w)).
    { inversion 1 as [| |? ? s1 s2 H1 H2| | | |]; subst.
      apply IH1 in H1. apply (lang_seq _ _ (String c s1) s2 H1 H2). }
    assert (Hinv : lang (Seq r1 r2) (String c w) →
                   lang (Seq (deriv c r1) r2) w ∨ (lang r1 "" ∧ lang (deriv c r2) w)).
    { inversion 1 as [| |? ? s1 s2 H1 H2 E1 E2| | | |]; subst.
      destruct s1 as [|d s1]; simpl in E2.
      - right. subst. split; [done | by apply IH2].
      - injection E2 as -> <-. left. constructor; [by apply IH1 | done]. }
    destruct (nullable r1) eqn:Hn.
    + split.
      * inversion 1; subst; [by apply Hseq|].
        apply nullable_spec in Hn.
        apply (lang_seq _ _ "" (String c w) Hn). by apply IH2.
      * intros H. destruct (Hinv H) as [?|[_ ?]];
          [by apply lang_alt_l | by apply lang_alt_r].
    + split; [done|].
      intros H. destruct (Hinv H) as [?|[Hnull _]]; [done|].
      apply nullable_spec in Hnull. congruence.
  - split.
    + inversion 1; subst;
        [apply lang_alt_l; by apply IH1 | apply lang_alt_r; by apply IH2].
    + inversion 1; subst;
        [apply lang_alt_l; by apply IH1 | apply lang_alt_r; by apply IH2].
  - split.
    + inversion 1 as [| |? ? s1 s2 H1 H2| | | |]; subst.
      apply IH in H1. apply (lang_star_cons _ (String c s1) s2 H1 H2).
    + intros H. apply lang_star_inv in H as [?|(d & s1 & s2 & E & H1 & H2)];
        [discriminate|].
      injection E as <- ->. constructor; [by apply IH | done].
Qed.

Lemma matches_spec (r : regex) (w : string) : matches r w = true ↔ lang r w.
Proof.
  revert r. induction w as [|c w IH]; intros r; simpl.
  - apply nullable_spec.
  - by rewrite IH, deriv_spec.
Qed.

Lemma lang_Lit (p w : string) : lang (Lit p) w ↔ w = p.
Proof.
  revert w. induction p as [|c p IH]; intros w; simpl.
  - split; [by inversion 1 | intros ->; constructor].
  - split.
    + inversion 1 as [| |? ? s1 s2 H1 H2| | | |]; subst.
      apply IH in H2 as ->. inversion H1; subst.
      match goal with Hc : Ascii.eqb _ _ = true |- _ =>
        apply Ascii.eqb_eq in Hc as -> end. done.
    + intros ->. apply (lang_seq _ _ (String c "") p).
      * constructor. apply Ascii.eqb_refl.
      * by apply IH.
Qed.

Lemma lang_anyStar (w : string) : lang (Star anyChar) w.
Proof.
  induction w as [|c w IH]; [constructor|].
  apply (lang_star_cons _ (String c "") w); [by constructor | done].
Qed.

Lemma testAtStart_spec (r : regex) (w : string) :
  testAtStart r w = true ↔ ∃ found rest, w = found +:+ rest ∧ lang r found.
Proof.
  unfold testAtStart. rewrite matches_spec. split.
  - inversion 1 as [| |? ? s1 s2 H1 H2| | | |]; subst. by exists s1, s2.
  - intros (found & rest & -> & H). constructor; [done | apply lang_anyStar].
Qed.

Lemma test_spec (r : regex) (w : string) :
  test r w = true ↔ ∃ before found after, w = before +:+ found +:+ after ∧ lang r found.
Proof.
  unfold test. rewrite matches_spec. split.
  - inversion 1 as [| |? ? s1 s2 H1 H2| | | |]; subst.
    inversion H2 as [| |? ? t1 t2 H3 H4| | | |]; subst. by exists s1, t1, t2.
  - intros (before & found & after & -> & H).
    constructor; [apply lang_anyStar|]. constructor; [done | apply lang_anyStar].
Qed.

Lemma testAtStart_Lit (p w : string) : testAtStart (Lit p) w = startsWith w p.
Proof.
  apply eq_true_iff_eq. rewrite testAtStart_spec, startsWith_spec. split.
  - intros (found & rest & -> & H). apply lang_Lit in H as ->. by exists rest.
  - intros [rest ->]. exists p, rest. split; [done | by apply lang_Lit].
Qed.

Lemma lang_Chr (c : ascii) (w : string) : lang (Chr c) w ↔ w = String c "".
Proof.
  split.
  - inversion 1 as [|? d Hd| | | | |]; subst. by apply Ascii.eqb_eq in Hd as ->.
  - intros ->. constructor. apply Ascii.eqb_refl.
Qed.

Lemma lang_Class (p : ascii → bool) (w : string) :
  lang (Class p) w ↔ ∃ c, w = String c "" ∧ p c = true.
Proof.
  split.
  - inversion 1; subst. eauto.
  - intros (c & -> & Hc). by constructor.
Qed.

Lemma lang_Seq (r1 r2 : regex) (w : string) :
  lang (Seq r1 r2) w ↔ ∃ w1 w2, w = w1 +:+ w2 ∧ lang r1 w1 ∧ lang r2 w2.
Proof.
  split.
  - inversion 1; subst. eauto.
  - intros (w1 & w2 & -> & H1 & H2). by constructor.
Qed.

(** [/^https?:/] accepts exactly the two prefixes. *)
Lemma lang_reHttps (w : string) : lang reHttps w ↔ w = "http:" ∨ w = "https:".
Proof.
  unfold reHttps, Opt. rewrite lang_Seq. split.
  - intros (w1 & w2 & -> & H1 & H2). apply lang_Lit in H1 as ->.
    apply lang_Seq in H2 as (w3 & w4 & -> & H3 & H4).
    apply lang_Chr in H4 as ->.
    inversion H3 as [| | |? ? ? Hs|? ? ? He| |]; subst.
    + apply lang_Chr in Hs as ->. by right.
    + inversion He; subst. by left.
  - intros [-> | ->].
    + exists "http", ":". split; [done|]. split; [by apply lang_Lit|].
      apply (lang_seq _ _ "" ":"); [apply lang_alt_r; constructor | by apply lang_Chr].
    + exists "http", "s:". split; [done|]. split; [by apply lang_Lit|].
      apply (lang_seq _ _ "s" ":"); [apply lang_alt_l; by apply lang_Chr | by apply lang_Chr].
Qed.

Lemma testAtStart_reHttps (w : string) :
  testAtStart reHttps w = startsWith w "http:" || startsWith w "https:".
Proof.
  apply eq_true_iff_eq.
  rewrite testAtStart_spec, orb_true_iff, !startsWith_spec. split.
  - intros (found & rest & -> & H). apply lang_reHttps in H as [-> | ->];
      [left | right]; by exists rest.
  - intros [[rest ->] | [rest ->]].
    + exists "http:", rest. split; [done|]. apply lang_reHttps. by left.
    + exists "https:", rest. split; [done|]. apply lang_reHttps. by right.
Qed.

(** Runs of one character class. *)
Lemma lang_Star_class (r : regex) (p : ascii → bool) (w : string) :
  (∀ v, lang r v ↔ ∃ c, v = String c "" ∧ p c = true) →
  lang (Star r) w ↔ allChars p w = true.
Proof.
  intros Hr. split.
  - intros H. remember (Star r) as r' eqn:E.
    induction H as [| | | | | |r0 s1 s2 H1 _ _ IH2]; try discriminate; [done|].
    injection E as ->. apply Hr in H1 as (c & -> & Hc). simpl.
    rewrite Hc. by apply IH2.
  - induction w as [|c w IH]; simpl; [constructor|].
    rewrite andb_true_iff. intros [Hc Hw].
    apply (lang_star_cons _ (String c "") w); [|by apply IH].
    apply Hr. eauto.
Qed.

Lemma lang_Plus_class (r : regex) (p : ascii → bool) (w : string) :
  (∀ v, lang r v ↔ ∃ c, v = String c "" ∧ p c = true) →
  lang (Plus r) w ↔ w ≠ "" ∧ allChars p w = true.
Proof.
  intros Hr. unfold Plus. rewrite lang_Seq. split.
  - intros (w1 & w2 & -> & H1 & H2). apply Hr in H1 as (c & -> & Hc).
    apply (lang_Star_class _ _ _ Hr) in H2. simpl. by rewrite Hc, H2.
  - intros [Hne Hall]. destruct w as [|c w]; [done|]. simpl in Hall.
    apply andb_true_iff in Hall as [Hc Hw].
    exists (String c ""), w. split; [done|]. split; [apply Hr; eauto|].
    by apply (lang_Star_class _ _ _ Hr).
Qed.

Lemma lang_wordOrDash (v : string) :
  lang (Alt (Class isWord) (Chr "-")) v ↔ ∃ c, v = String c "" ∧ wordOrDash c = true.
Proof.
  unfold wordOrDash. split.
  - inversion 1 as [| | |? ? ? Hl|? ? ? Hr| |]; subst.
    + apply lang_Class in Hl as (c & -> & Hc). exists c. by rewrite Hc.
    + apply lang_Chr in Hr as ->. by exists "-"%char.
  - intros (c & -> & Hc). apply orb_true_iff in Hc as [Hc | Hc].
    + apply lang_alt_l. by constructor.
    + apply lang_alt_r. constructor. by rewrite Ascii.eqb_sym.
Qed.

Lemma lang_reExternal (w : string) :
  lang reExternal w ↔
  ∃ ws1 word ws2,
    w = "/external" +:+ String ws1 (word +:+ String ws2 (String doubleQuote "")) ∧
    isSpace ws1 = true ∧ word ≠ "" ∧ allChars wordOrDash word = true ∧
    isSpace ws2 = true.
Proof.
  unfold reExternal. rewrite lang_Seq. split.
  - intros (w1 & w2 & -> & H1 & H2). apply lang_Lit in H1 as ->.
    apply lang_Seq in H2 as (a & w3 & -> & Ha & H3).
    apply lang_Class in Ha as (ws1 & -> & Hws1).
    apply lang_Seq in H3 as (word & w4 & -> & Hword & H4).
    apply (lang_Plus_class _ _ _ lang_wordOrDash) in Hword as [Hne Hall].
    apply lang_Seq in H4 as (b & q & -> & Hb & Hq).
    apply lang_Class in Hb as (ws2 & -> & Hws2).
    apply lang_Chr in Hq as ->. by exists ws1, word, ws2.
  - intros (ws1 & word & ws2 & -> & Hws1 & Hne & Hall & Hws2).
    exists "/external", (String ws1 (word +:+ String ws2 (String doubleQuote ""))).
    split; [done|]. split; [by apply lang_Lit|].
    apply (lang_seq _ _ (String ws1 "")); [by constructor|].
    constructor; [by apply (lang_Plus_class _ _ _ lang_wordOrDash)|].
    apply (lang_seq _ _ (String ws2 "")); [by constructor | by apply lang_Chr].
Qed.

Lemma test_reExternal (filePath : string) :
  test reExternal filePath = true ↔ namesExternalModule filePath.
Proof.
  rewrite test_spec. unfold namesExternalModule. split.
  - intros (before & found & after & -> & H).
    apply lang_reExternal in H as (ws1 & word & ws2 & -> & ? & ? & ? & ?).
    exists before, ws1, word, ws2, after. split; [|done].
    f_equal. simpl. by rewrite append_assoc.
  - intros (before & ws1 & word & ws2 & after & -> & ? & ? & ? & ?).
    exists before,
      ("/external" +:+ String ws1 (word +:+ String ws2 (String doubleQuote ""))),
      after.
    split; [|apply lang_reExternal; by exists ws1, word, ws2].
    f_equal. simpl. by rewrite append_assoc.
Qed.

(** ** The file-name expression *)

Lemma matches_reFileName (w : string) :
  matches reFileName w = true ↔ w ≠ "" ∧ allChars notSeparator w = true.
Proof.
  unfold reFileName. rewrite matches_spec.
  apply lang_Plus_class. intros v. apply lang_Class.
Qed.

Lemma allChars_app (p : ascii → bool) (a b : string) :
  allChars p (a +:+ b) = allChars p a && allChars p b.
Proof. induction a as [|c a IH]; simpl; [done | by rewrite IH, andb_assoc]. Qed.

Lemma execAtEnd_basename (filePath name : string) :
  execAtEnd reFileName filePath = Some name → basenameOf filePath name.
Proof.
  induction filePath as [|c rest IH]; cbn [execAtEnd].
  - destruct (matches reFileName "") eqn:Hm; [|done].
    apply matches_reFileName in Hm as [? _]. done.
  - destruct (matches reFileName (String c rest)) eqn:Hm.
    + intros [= <-]. apply matches_reFileName in Hm as [Hne Hall].
      split; [done|]. split; [done|]. exists "". by split; [|left].
    + intros Hrest. destruct (IH Hrest) as (Hne & Hall & dir & -> & Hdir).
      split; [done|]. split; [done|]. exists (String c dir). split; [done|].
      right. destruct Hdir as [-> | (d & sep & -> & Hsep)].
      * exists "", c. split; [done|].
        destruct (notSeparator c) eqn:Hc; [|done].
        assert (matches reFileName (String c name) = true) as Hyes; [|simpl in *; congruence].
        apply matches_reFileName. split; [done|]. simpl. by rewrite Hc.
      * by exists (String c d), sep.
Qed.

Lemma basename_execAtEnd (filePath name : string) :
  basenameOf filePath name → execAtEnd reFileName filePath = Some name.
Proof.
  intros (Hne & Hall & dir & -> & Hdir).
  assert (Hname : execAtEnd reFileName name = Some name).
  { destruct name as [|c name]; [done|]. cbn [execAtEnd].
    assert (matches reFileName (String c name) = true) as ->; [|done].
    by apply matches_reFileName. }
  induction dir as [|c dir IH]; [done|].
  assert (Hno : matches reFileName (String c dir +:+ name) = false).
  { destruct (matches reFileName (String c dir +:+ name)) eqn:Hm; [|done].
    apply matches_reFileName in Hm as [_ Hm].
    destruct Hdir as [? | (d & sep & Hd & Hsep)]; [done|].
    rewrite allChars_app, Hd, allChars_app in Hm.
    apply andb_true_iff in Hm as [Hm _]. apply andb_true_iff in Hm as [_ Hm].
    simpl in Hm. by rewrite Hsep in Hm. }
  change (String c dir +:+ name) with (String c (dir +:+ name)) in *.
  cbn [execAtEnd]. rewrite Hno. apply IH.
  destruct Hdir as [? | (d & sep & Hd & Hsep)]; [done|].
  destruct d as [|x d]; simpl in Hd.
  - injection Hd as -> <-. by left.
  - injection Hd as -> ->. right. by exists d, sep.
Qed.

(** The condition computed by the source is the condition in words. *)
Lemma isExternal_spec (filePath : string) :
  isExternal filePath = true ↔ infrastructure filePath.
Proof.
  unfold isExternal, infrastructure.
  rewrite !orb_true_iff, includes_spec, test_reExternal.
  assert (Hbase :
    match execAtEnd reFileName filePath with
    | Some name => startsWith name "webpack "
    | None => false
    end = true ↔ basenameStartsWithWebpack filePath).
  { unfold basenameStartsWithWebpack. split.
    - destruct (execAtEnd reFileName filePath) as [name|] eqn:He; [|done].
      intros [rest ->]%startsWith_spec. apply execAtEnd_basename in He. eauto.
    - intros (name & rest & Hb & ->). rewrite (basename_execAtEnd _ _ Hb).
      apply startsWith_spec. by exists rest. }
  unfold containsWebpackSegment. tauto.
Qed.

(** ** [some] and [omitBy] *)

Lemma some_pure {A} (g : A → bool) (array : list A) :
  some (fun x => Ok (g x)) array = Ok (existsb g array).
Proof.
  induction array as [|x rest IH]; simpl; [done|].
  destruct (g x); simpl; [done | apply IH].
Qed.

Lemma some_false {A} (callback : A → Exc bool) (array : list A) :
  some callback array = Ok false ↔ ∀ x, x ∈ array → callback x = Ok false.
Proof.
  induction array as [|x rest IH]; simpl.
  - split; [intros _ x Hx; by apply elem_of_nil in Hx | done].
  - split.
    + intros H y Hy. destruct (callback x) as [[]|] eqn:Hc; try done.
      apply elem_of_cons in Hy as [-> | Hy]; [done|]. by apply IH.
    + intros H. rewrite (H x) by apply list_elem_of_here. simpl.
      apply IH. intros y Hy. apply H. by apply list_elem_of_further.
Qed.

Lemma some_true {A} (callback : A → Exc bool) (array : list A) :
  some callback array = Ok true → ∃ x, x ∈ array ∧ callback x = Ok true.
Proof.
  induction array as [|x rest IH]; simpl; [done|].
  destruct (callback x) as [[]|] eqn:Hc; simpl; try done.
  - intros _. exists x. split; [apply list_elem_of_here | done].
  - intros H. destruct (IH H) as (y & Hy & Hcy).
    exists y. split; [by apply list_elem_of_further | done].
Qed.

Lemma some_returns {A} (callback : A → Exc bool) (array : list A) :
  (∀ x, x ∈ array → ∃ found, callback x = Ok found) →
  ∃ found, some callback array = Ok found.
Proof.
  induction array as [|x rest IH]; simpl; intros H; [by exists false|].
  destruct (H x) as [found ->]; [apply list_elem_of_here|]. simpl.
  destruct found; [by exists true|].
  apply IH. intros y Hy. apply H. by apply list_elem_of_further.
Qed.

Section OmitBy.

Context {V : Type}.
Implicit Types (object : gmap string V) (predicate : V → string → Exc bool).

(** Either every call of the predicate returns and the result is the map
    of the entries it answered [false] for, or the throw of some call is
    the outcome. *)
Lemma omitBy_outcome object predicate :
  match omitBy object predicate with
  | Ok kept =>
      (∀ key value, object !! key = Some value →
                    ∃ omit, predicate value key = Ok omit) ∧
      kept = filter (λ kv, predicate kv.2 kv.1 = Ok false) object
  | Throw e =>
      ∃ key value, object !! key = Some value ∧ predicate value key = Throw e
  end.
Proof.
  unfold omitBy.
  apply (map_fold_weak_ind (λ r object,
    match r with
    | Ok kept =>
        (∀ key value, object !! key = Some value →
                      ∃ omit, predicate value key = Ok omit) ∧
        kept = filter (λ kv, predicate kv.2 kv.1 = Ok false) object
    | Throw e =>
        ∃ key value, object !! key = Some value ∧ predicate value key = Throw e
    end)).
  - split; [intros key value Hk; by rewrite lookup_empty in Hk|].
    by rewrite map_filter_empty.
  - intros i x m r Hi IH.
    destruct (predicate x i) as [omit|e] eqn:Hp; simpl.
    + destruct r as [kept|e]; simpl.
      * destruct IH as [Hall ->]. split.
        -- intros key value. rewrite lookup_insert_Some.
           intros [[<- <-] | [_ Hk]]; [eauto | by eapply Hall].
        -- destruct omit.
           ++ rewrite map_filter_insert_False by (simpl; congruence).
              by rewrite delete_id.
           ++ by rewrite map_filter_insert_True.
      * destruct IH as (key & value & Hk & Hthrow).
        exists key, value. split; [|done].
        rewrite lookup_insert_ne; [done | congruence].
    + exists i, x. split; [apply lookup_insert_eq | done].
Qed.

Lemma omitBy_returns object predicate :
  (∀ key value, object !! key = Some value →
                ∃ omit, predicate value key = Ok omit) →
  omitBy object predicate =
    Ok (filter (λ kv, predicate kv.2 kv.1 = Ok false) object).
Proof.
  intros Hall. pose proof (omitBy_outcome object predicate) as H.
  destruct (omitBy object predicate) as [kept|e].
  - by destruct H as [_ ->].
  - destruct H as (key & value & Hk & Hthrow).
    destruct (Hall key value Hk) as [omit Hreturn]. congruence.
Qed.

Lemma omitBy_Ok_inv object predicate kept :
  omitBy object predicate = Ok kept →
  (∀ key value, object !! key = Some value →
                ∃ omit, predicate value key = Ok omit) ∧
  kept = filter (λ kv, predicate kv.2 kv.1 = Ok false) object.
Proof.
  intros H. pose proof (omitBy_outcome object predicate) as Ho.
  by rewrite H in Ho.
Qed.

Lemma omitBy_Throw_inv object predicate e :
  omitBy object predicate = Throw e →
  ∃ key value, object !! key = Some value ∧ predicate value key = Throw e.
Proof.
  intros H. pose proof (omitBy_outcome object predicate) as Ho.
  by rewrite H in Ho.
Qed.

Lemma omitBy_empty predicate : omitBy (∅ : gmap string V) predicate = Ok ∅.
Proof.
  rewrite omitBy_returns; [by rewrite map_filter_empty|].
  intros key value Hk. by rewrite lookup_empty in Hk.
Qed.

Lemma omitBy_subseteq object predicate kept :
  omitBy object predicate = Ok kept → kept ⊆ object.
Proof. intros [_ ->]%omitBy_Ok_inv. apply map_filter_subseteq. Qed.

(** A map made of entries that one run has kept is left as it is. *)
Lemma omitBy_stable object predicate kept sub :
  omitBy object predicate = Ok kept → sub ⊆ kept →
  omitBy sub predicate = Ok sub.
Proof.
  intros [Hall ->]%omitBy_Ok_inv Hsub.
  rewrite omitBy_returns.
  - f_equal. apply map_filter_id. intros key value Hk.
    eapply lookup_weaken in Hk; [|exact Hsub].
    by apply map_lookup_filter_Some in Hk as [_ ?].
  - intros key value Hk. eapply lookup_weaken in Hk; [|exact Hsub].
    apply map_lookup_filter_Some in Hk as [Hk _]. by eapply Hall.
Qed.

(** Two passes whose predicates return on every entry commute. *)
Lemma omitBy_comm object p q :
  (∀ key value, object !! key = Some value → ∃ omit, p value key = Ok omit) →
  (∀ key value, object !! key = Some value → ∃ omit, q value key = Ok omit) →
  (kept ← omitBy object p; omitBy kept q) =
  (kept ← omitBy object q; omitBy kept p).
Proof.
  intros Hp Hq. rewrite (omitBy_returns object p Hp), (omitBy_returns object q Hq).
  simpl. rewrite !omitBy_returns.
  - f_equal. apply map_filter_comm.
  - intros key value [Hk _]%map_lookup_filter_Some. by eapply Hp.
  - intros key value [Hk _]%map_lookup_filter_Some. by eapply Hq.
Qed.

End OmitBy.

(** ** support-utils.js: the two passes *)

Lemma filterExternalFromCoverage_eq (totalCoverage : gmap string FileCoverage) :
  filterExternalFromCoverage totalCoverage =
    Ok (filter (λ kv, isExternal kv.1 = false) totalCoverage).
Proof.
  unfold filterExternalFromCoverage. rewrite omitBy_returns.
  - f_equal. apply map_filter_ext. intros key value _. simpl.
    destruct (isExternal key); naive_solver.
  - intros key value _. destruct (isExternal key); eauto.
Qed.

Lemma filterExternalFromCoverage_cjs_eq (totalCoverage : gmap string FileCoverage) :
  filterExternalFromCoverage_cjs totalCoverage =
    Ok (filter (λ kv, isExternal (path kv.2) = false) totalCoverage).
Proof.
  unfold filterExternalFromCoverage_cjs. rewrite omitBy_returns.
  - f_equal. apply map_filter_ext. intros key value _. simpl.
    destruct (isExternal (path value)); naive_solver.
  - intros key value _. simpl. destruct (isExternal (path value)); eauto.
Qed.

Section FilterProperties.

Variable minimatch : string → string → option bool.

Local Abbreviation relativeName spec filePath :=
  (replaceWithEmpty filePath (replaceWithEmpty (absolute spec) (relative spec))).

Lemma isTestFile_returns (patterns : list Pattern) (spec : Spec) (filePath : string) :
  (∀ p, p ∈ patterns →
        ∃ matched, Cypress_minimatch minimatch (relativeName spec filePath) p = Ok matched) →
  ∃ omit, isTestFile minimatch patterns spec filePath = Ok omit.
Proof.
  intros H. unfold isTestFile. cbv zeta.
  destruct (some_returns
              (λ specPattern,
                 Cypress_minimatch minimatch (relativeName spec filePath) specPattern)
              patterns H) as [found ->].
  simpl. rewrite some_pure. simpl. eauto.
Qed.

Lemma isTestFile_Ok (patterns : list Pattern) (spec : Spec) (filePath : string)
    (omit : bool) :
  isTestFile minimatch patterns spec filePath = Ok omit →
  (omit = true ↔
   ∃ p, p ∈ patterns ∧
        (Cypress_minimatch minimatch (relativeName spec filePath) p = Ok true ∨
         endsWith (relativeName spec filePath) (patternToString p) = true)).
Proof.
  unfold isTestFile. cbv zeta.
  destruct (some (λ specPattern, Cypress_minimatch minimatch _ specPattern) patterns)
    as [found|e] eqn:Hsome; simpl; [|done].
  rewrite some_pure. simpl. intros [= <-]. rewrite orb_true_iff. split.
  - intros [-> | Hends].
    + apply some_true in Hsome as (p & Hp & Hm). eauto.
    + apply existsb_exists in Hends as (p & Hp%list_elem_of_In & Hm). eauto.
  - intros (p & Hp & [Hm | Hends]).
    + left. destruct found; [done|].
      rewrite some_false in Hsome. specialize (Hsome p Hp). congruence.
    + right. apply existsb_exists. exists p. by rewrite <- list_elem_of_In.
Qed.

(** The self-test pass returns as soon as the matcher accepts the
    configured patterns on the files of the map. *)
Lemma filterSpecsFromCoverage_returns totalCoverage config env spec :
  (∀ p filePath, p ∈ getCypressExcludePatterns config env spec →
     is_Some (totalCoverage !! filePath) →
     ∃ matched, Cypress_minimatch minimatch (relativeName spec filePath) p = Ok matched) →
  ∃ kept, filterSpecsFromCoverage minimatch totalCoverage config env spec = Ok kept.
Proof.
  intros H. unfold filterSpecsFromCoverage. rewrite omitBy_returns; [eauto|].
  intros key value Hk. apply isTestFile_returns. intros p Hp. apply H; eauto.
Qed.

(** Claim C3.  The coverage filter is idempotent: for every coverage map
    and every fixed configuration (spec patterns, exclude list, spec paths),
    filtering the filtered map gives the filtered map again; when the
    filter throws, filtering twice throws the same error.  This holds for
    both copies of the module. *)
Theorem filterFilesFromCoverage_idempotent totalCoverage config env spec :
  (filtered ← filterFilesFromCoverage minimatch totalCoverage config env spec;
   filterFilesFromCoverage minimatch filtered config env spec)
  = filterFilesFromCoverage minimatch totalCoverage config env spec
  ∧
  (filtered ← filterFilesFromCoverage_cjs minimatch totalCoverage config env spec;
   filterFilesFromCoverage_cjs minimatch filtered config env spec)
  = filterFilesFromCoverage_cjs minimatch totalCoverage config env spec.
Proof.
  assert (Htwo : ∀ (p q : FileCoverage → string → Exc bool),
    (filtered ← (kept ← omitBy totalCoverage p; kept' ← omitBy kept q; Ok kept');
     kept ← omitBy filtered p; kept' ← omitBy kept q; Ok kept')
    = (kept ← omitBy totalCoverage p; kept' ← omitBy kept q; Ok kept')).
  { intros p q.
    destruct (omitBy totalCoverage p) as [kept|e] eqn:Hp; simpl; [|done].
    destruct (omitBy kept q) as [kept'|e] eqn:Hq; simpl; [|done].
    rewrite (omitBy_stable _ _ _ kept' Hp (omitBy_subseteq _ _ _ Hq)). simpl.
    by rewrite (omitBy_stable _ _ _ kept' Hq). }
  split; apply Htwo.
Qed.

(** Claim C4, as amended.  For every coverage map and every configuration
    on which the self-test pass completes (it does not throw), applying
    self-test exclusion and then infrastructure exclusion yields exactly the
    same map as applying them in the reverse order, for both copies of the
    infrastructure pass. *)
Theorem filter_passes_commute totalCoverage config env spec :
  (∃ kept, filterSpecsFromCoverage minimatch totalCoverage config env spec = Ok kept) →
  (kept ← filterSpecsFromCoverage minimatch totalCoverage config env spec;
   filterExternalFromCoverage kept)
  = (kept ← filterExternalFromCoverage totalCoverage;
     filterSpecsFromCoverage minimatch kept config env spec)
  ∧
  (kept ← filterSpecsFromCoverage minimatch totalCoverage config env spec;
   filterExternalFromCoverage_cjs kept)
  = (kept ← filterExternalFromCoverage_cjs totalCoverage;
     filterSpecsFromCoverage minimatch kept config env spec).
Proof.
  intros [kept Hkept]. apply omitBy_Ok_inv in Hkept as [Hall _].
  split; apply omitBy_comm; try done.
  - intros key value _. destruct (isExternal key); eauto.
  - intros key value _. simpl. destruct (isExternal (path value)); eauto.
Qed.

(** Claim C7, as amended.  For every coverage map and every configuration,
    if [Cypress.minimatch] accepts each configured pattern on each file of
    the map, then [filterFilesFromCoverage] does not throw and returns a
    coverage map, which is a part of the given one. *)
Theorem filterFilesFromCoverage_returns totalCoverage config env spec :
  (∀ p filePath, p ∈ getCypressExcludePatterns config env spec →
     is_Some (totalCoverage !! filePath) →
     ∃ matched, Cypress_minimatch minimatch (relativeName spec filePath) p = Ok matched) →
  (∃ filtered,
     filterFilesFromCoverage minimatch totalCoverage config env spec = Ok filtered ∧
     filtered ⊆ totalCoverage)
  ∧
  (∃ filtered,
     filterFilesFromCoverage_cjs minimatch totalCoverage config env spec = Ok filtered ∧
     filtered ⊆ totalCoverage).
Proof.
  intros H. destruct (filterSpecsFromCoverage_returns _ _ _ _ H) as [kept Hkept].
  pose proof (omitBy_subseteq _ _ _ Hkept) as Hsub.
  unfold filterFilesFromCoverage, filterFilesFromCoverage_cjs. rewrite Hkept. simpl.
  rewrite filterExternalFromCoverage_eq, filterExternalFromCoverage_cjs_eq. simpl.
  split; eexists; (split; [done|]);
    (etrans; [apply map_filter_subseteq | done]).
Qed.




End FilterProperties.

(** Claim C8.  Infrastructure exclusion removes exactly the entries whose
    file basename starts with the marker [webpack ] (with the space), or whose
    path contains the segment [/webpack/], or whose path matches the
    external-module naming convention, and keeps every other entry
    unchanged.  In the ES-module copy the path is the key of the entry, in
    the CommonJS copy it is the [path] field of its value. *)
Theorem filterExternalFromCoverage_removes_exactly
    (totalCoverage : gmap string FileCoverage) :
  (∃ kept, filterExternalFromCoverage totalCoverage = Ok kept ∧
     ∀ filePath,
       (infrastructure filePath → kept !! filePath = None) ∧
       (¬ infrastructure filePath → kept !! filePath = totalCoverage !! filePath))
  ∧
  (∃ kept, filterExternalFromCoverage_cjs totalCoverage = Ok kept ∧
     ∀ filePath,
       match totalCoverage !! filePath with
       | Some value =>
           (infrastructure (path value) → kept !! filePath = None) ∧
           (¬ infrastructure (path value) → kept !! filePath = Some value)
       | None => kept !! filePath = None
       end).
Proof.
  split.
  - eexists. split; [apply filterExternalFromCoverage_eq|].
    intros filePath. rewrite <- isExternal_spec, map_lookup_filter.
    destruct (totalCoverage !! filePath) as [value|]; simpl.
    + destruct (isExternal filePath); split; intros ?; try done;
        by rewrite ?option_guard_True, ?option_guard_False.
    + done.
  - eexists. split; [apply filterExternalFromCoverage_cjs_eq|].
    intros filePath. rewrite map_lookup_filter.
    destruct (totalCoverage !! filePath) as [value|]; simpl; [|done].
    rewrite <- isExternal_spec.
    destruct (isExternal (path value)); split; intros ?; try done;
      by rewrite ?option_guard_True, ?option_guard_False.
Qed.

(** ** The filter on the example data *)

Lemma globMatch_accepts (patterns : list Pattern) (filename : string) (p : Pattern) :
  Forall (λ q, q ≠ PUndefined) patterns → p ∈ patterns →
  ∃ matched, Cypress_minimatch globMatch filename p = Ok matched.
Proof.
  intros Hall Hp. rewrite Forall_forall in Hall. specialize (Hall p Hp).
  destruct p as [|p]; [done|]. simpl. eauto.
Qed.

Lemma filter_passes_commute_witness :
  (∃ kept, filterSpecsFromCoverage globMatch exampleCoverage exampleConfig
             excludeEnv exampleSpec = Ok kept) ∧
  (kept ← filterSpecsFromCoverage globMatch exampleCoverage exampleConfig
            excludeEnv exampleSpec;
   filterExternalFromCoverage kept)
  = (kept ← filterExternalFromCoverage exampleCoverage;
     filterSpecsFromCoverage globMatch kept exampleConfig excludeEnv exampleSpec).
Proof.
  assert (H : ∃ kept, filterSpecsFromCoverage globMatch exampleCoverage exampleConfig
                        excludeEnv exampleSpec = Ok kept).
  { apply filterSpecsFromCoverage_returns. intros p filePath Hp _.
    apply (globMatch_accepts
             (getCypressExcludePatterns exampleConfig excludeEnv exampleSpec));
      [|done].
    repeat constructor; discriminate. }
  split; [exact H|].
  apply (filter_passes_commute globMatch exampleCoverage exampleConfig excludeEnv
           exampleSpec H).
Defined.

(** With no spec pattern set the pattern array is [[undefined]]: on a map
    that holds one bundler-synthetic entry the self-test pass throws before
    the glob matcher is consulted, whereas after the infrastructure pass there
    is no entry left to call the predicate on. *)
Lemma filter_passes_commute_unset_pattern :
  (kept ← filterSpecsFromCoverage globMatch webpackCoverage unsetConfig noEnv exampleSpec;
   filterExternalFromCoverage kept) = Throw TypeError ∧
  (kept ← filterExternalFromCoverage webpackCoverage;
   filterSpecsFromCoverage globMatch kept unsetConfig noEnv exampleSpec) = Ok ∅ ∧
  (kept ← filterSpecsFromCoverage globMatch webpackCoverage unsetConfig noEnv exampleSpec;
   filterExternalFromCoverage kept)
  ≠ (kept ← filterExternalFromCoverage webpackCoverage;
     filterSpecsFromCoverage globMatch kept unsetConfig noEnv exampleSpec).
Proof.
  assert (H1 : (kept ← filterSpecsFromCoverage globMatch webpackCoverage unsetConfig
                         noEnv exampleSpec;
                filterExternalFromCoverage kept) = Throw TypeError)
    by (vm_compute; reflexivity).
  assert (H2 : (kept ← filterExternalFromCoverage webpackCoverage;
                filterSpecsFromCoverage globMatch kept unsetConfig noEnv exampleSpec)
               = Ok ∅)
    by (vm_compute; reflexivity).
  split; [done|]. split; [done|]. rewrite H1, H2. discriminate.
Qed.

Lemma filterFilesFromCoverage_returns_witness :
  (∀ p filePath, p ∈ getCypressExcludePatterns exampleConfig excludeEnv exampleSpec →
     is_Some (exampleCoverage !! filePath) →
     ∃ matched,
       Cypress_minimatch globMatch
         (replaceWithEmpty filePath
            (replaceWithEmpty (absolute exampleSpec) (relative exampleSpec))) p
       = Ok matched) ∧
  ∃ filtered,
    filterFilesFromCoverage globMatch exampleCoverage exampleConfig excludeEnv
      exampleSpec = Ok filtered ∧
    filtered ⊆ exampleCoverage.
Proof.
  assert (H : ∀ p filePath,
    p ∈ getCypressExcludePatterns exampleConfig excludeEnv exampleSpec →
    is_Some (exampleCoverage !! filePath) →
    ∃ matched,
      Cypress_minimatch globMatch
        (replaceWithEmpty filePath
           (replaceWithEmpty (absolute exampleSpec) (relative exampleSpec))) p
      = Ok matched).
  { intros p filePath Hp _.
    apply (globMatch_accepts
             (getCypressExcludePatterns exampleConfig excludeEnv exampleSpec));
      [|done].
    repeat constructor; discriminate. }
  split; [exact H|].
  exact (proj1 (filterFilesFromCoverage_returns globMatch exampleCoverage
                  exampleConfig excludeEnv exampleSpec H)).
Defined.

(** With no spec pattern and no exclude pattern set, the filter throws on a
    map that holds one application file, in both copies of the module. *)
Lemma filterFilesFromCoverage_throws_when_unset :
  filterFilesFromCoverage globMatch sourceCoverage unsetConfig noEnv exampleSpec
  = Throw TypeError ∧
  filterFilesFromCoverage_cjs globMatch sourceCoverage unsetConfig noEnv exampleSpec
  = Throw TypeError ∧
  ¬ ∃ filtered,
      filterFilesFromCoverage globMatch sourceCoverage unsetConfig noEnv exampleSpec
      = Ok filtered.
Proof.
  assert (H : filterFilesFromCoverage globMatch sourceCoverage unsetConfig noEnv
                exampleSpec = Throw TypeError) by (vm_compute; reflexivity).
  split; [done|]. split; [vm_compute; reflexivity|].
  intros [filtered Hf]. congruence.
Qed.



Lemma filterExternalFromCoverage_removes_exactly_witness :
  ∃ kept, filterExternalFromCoverage exampleCoverage = Ok kept ∧
          kept !! "/app/webpack/bootstrap" = None ∧
          kept !! "/app/src/foo.js" = exampleCoverage !! "/app/src/foo.js".
Proof.
  destruct (proj1 (filterExternalFromCoverage_removes_exactly exampleCoverage))
    as (kept & Hkept & Hchar).
  exists kept. split; [exact Hkept|]. split.
  - apply (proj1 (Hchar "/app/webpack/bootstrap")).
    apply isExternal_spec. reflexivity.
  - apply (proj2 (Hchar "/app/src/foo.js")).
    rewrite <- isExternal_spec. discriminate.
Defined.

(** ** Merging coverage maps *)

Lemma mergeHits_comm {M H} `{EqDecision M} (add : H → H → H)
    (structure : gmap string M) (hits1 hits2 : gmap string H) :
  (∀ x y, add x y = add y x) →
  mergeHits add structure hits1 structure hits2 =
  mergeHits add structure hits2 structure hits1.
Proof.
  intros Hadd. apply map_eq. intros id. unfold mergeHits, tagHits.
  rewrite !lookup_merge, !map_lookup_imap.
  destruct (hits1 !! id) as [h1|], (hits2 !! id) as [h2|]; simpl; try done.
  destruct (decide (structure !! id = structure !! id)) as [_|Hne];
    [by rewrite Hadd | by destruct Hne].
Qed.

Lemma addBranchHits_comm (x y : list N) : addBranchHits x y = addBranchHits y x.
Proof.
  revert y. induction x as [|a x IH]; intros [|b y]; simpl; try done.
  by rewrite IH, N.add_comm.
Qed.

Lemma mergeFileCoverage_comm (x y : FileCoverage) :
  sameStructure x y → mergeFileCoverage x y = mergeFileCoverage y x.
Proof.
  destruct x, y. intros (Hpath & Hs & Hf & Hb). simpl in *. subst.
  unfold mergeFileCoverage. simpl. f_equal.
  - apply mergeHits_comm, N.add_comm.
  - apply mergeHits_comm, N.add_comm.
  - apply mergeHits_comm, addBranchHits_comm.
Qed.

Lemma mergeCoverageMap_comm (A B : gmap string FileCoverage) :
  consistent A B → mergeCoverageMap A B = mergeCoverageMap B A.
Proof.
  intros Hcons. apply map_eq. intros file. unfold mergeCoverageMap.
  rewrite !lookup_union_with.
  destruct (A !! file) as [x|] eqn:Ha, (B !! file) as [y|] eqn:Hb; simpl; try done.
  f_equal. apply mergeFileCoverage_comm. by eapply Hcons.
Qed.

Lemma mergeCoverageMap_empty_l (A : gmap string FileCoverage) :
  mergeCoverageMap createCoverageMap A = A.
Proof.
  apply map_eq. intros file. unfold mergeCoverageMap, createCoverageMap.
  rewrite lookup_union_with, lookup_empty. by destruct (A !! file).
Qed.

Lemma dom_mergeCoverageMap (A B : gmap string FileCoverage) :
  dom (mergeCoverageMap A B) = dom A ∪ dom B.
Proof.
  apply set_eq. intros file. unfold mergeCoverageMap.
  rewrite elem_of_union, !elem_of_dom, lookup_union_with.
  destruct (A !! file), (B !! file); simpl;
    rewrite ?is_Some_alt; split; try tauto; eauto.
Qed.

(** The scenario of additive counts: one statement hit once and then twice
    is recorded with three hits. *)
Example merge_adds_counts :
  mergeAll [Some {[ "file.js" := exampleFile "file.js" 1 1 1 ]};
            Some {[ "file.js" := exampleFile "file.js" 1 1 2 ]}]
  = {[ "file.js" := exampleFile "file.js" 1 1 3 ]}.
Proof. vm_compute. reflexivity. Qed.

(** Claim C1, as amended.  For any two fragments A and B that agree on the
    structure of every file they share (same path and identical statement,
    function and branch maps), merging A and then B into an empty coverage
    map yields the same map as merging B and then A; the [reduce] of
    [convertProfileCoverageToIstanbul] therefore gives the same map for the
    two orders. *)
Theorem merge_order_independent (A B : gmap string FileCoverage) :
  consistent A B →
  mergeCoverageMap (mergeCoverageMap createCoverageMap A) B =
  mergeCoverageMap (mergeCoverageMap createCoverageMap B) A
  ∧ mergeAll [Some A; Some B] = mergeAll [Some B; Some A].
Proof.
  intros Hcons.
  assert (mergeCoverageMap (mergeCoverageMap createCoverageMap A) B =
          mergeCoverageMap (mergeCoverageMap createCoverageMap B) A) as Heq.
  { rewrite !mergeCoverageMap_empty_l. by apply mergeCoverageMap_comm. }
  split; [exact Heq | exact Heq].
Qed.

Lemma fragments_consistent : consistent fragmentA fragmentB.
Proof.
  intros file x y Ha Hb. unfold fragmentA in Ha.
  apply lookup_singleton_Some in Ha as [<- <-].
  unfold fragmentB in Hb. rewrite lookup_insert_eq in Hb. injection Hb as <-.
  repeat split.
Defined.

Lemma merge_order_independent_witness :
  consistent fragmentA fragmentB ∧
  mergeCoverageMap (mergeCoverageMap createCoverageMap fragmentA) fragmentB =
  mergeCoverageMap (mergeCoverageMap createCoverageMap fragmentB) fragmentA.
Proof.
  split; [exact fragments_consistent|].
  exact (proj1 (merge_order_independent fragmentA fragmentB fragments_consistent)).
Defined.

(** Two fragments that record different ranges for statement 0 of one file:
    the merged map keeps the range of whichever fragment arrived first. *)
Lemma merge_order_matters_under_skew :
  mergeCoverageMap (mergeCoverageMap createCoverageMap skewedA) skewedB ≠
  mergeCoverageMap (mergeCoverageMap createCoverageMap skewedB) skewedA.
Proof.
  intros H.
  apply (f_equal (λ m : gmap string FileCoverage,
           fc ← m !! "/app/src/foo.js"; statementMap fc !! "0")) in H.
  vm_compute in H. discriminate.
Qed.

(** ** v8ToIstanbul.js *)

Lemma excludePath_spec (p : string) :
  excludePath p = true ↔
  (∃ before after, p = before +:+ "/node_modules/" +:+ after) ∨
  (∃ before after, p = before +:+ "/__cypress/" +:+ after) ∨
  (∃ before after, p = before +:+ "/__/assets/" +:+ after).
Proof.
  unfold excludePath. rewrite <- !includes_spec.
  destruct (includes p "/node_modules/"), (includes p "/__cypress/"),
    (includes p "/__/assets/"); simpl; intuition discriminate.
Qed.

(** The script filter of lines 72-86 in terms of plain prefixes. *)
Lemma keepScript_spec (obj : ScriptCoverage) :
  keepScript obj =
    (startsWith (url obj) "file:" || startsWith (url obj) "http:" ||
     startsWith (url obj) "https:") && negb (excludePath (url obj)).
Proof.
  unfold keepScript, excludePath, reFile.
  rewrite testAtStart_Lit, testAtStart_reHttps.
  destruct (startsWith (url obj) "file:"), (startsWith (url obj) "http:"),
    (startsWith (url obj) "https:"), (includes (url obj) "/node_modules/"),
    (includes (url obj) "/__cypress/"), (includes (url obj) "/__/assets/"); done.
Qed.

Lemma filter_keepScript_dropped (pre post : list ScriptCoverage) (obj : ScriptCoverage) :
  keepScript obj = false →
  List.filter keepScript (pre ++ obj :: post) = List.filter keepScript (pre ++ post).
Proof. intros H. rewrite !List.filter_app. simpl. by rewrite H. Qed.

Lemma mergeAll_skip_null (before after : list (option (gmap string FileCoverage))) :
  mergeAll (before ++ None :: after) = mergeAll (before ++ after).
Proof. unfold mergeAll. by rewrite !fold_left_app. Qed.

Lemma dom_mergeAll (coverages : list (option (gmap string FileCoverage))) (file : string) :
  file ∈ dom (mergeAll coverages) ↔
  ∃ fragment, Some fragment ∈ coverages ∧ file ∈ dom fragment.
Proof.
  unfold mergeAll.
  assert (Hgen : ∀ acc : gmap string FileCoverage,
    file ∈ dom (fold_left
                  (λ map coverage,
                     match coverage with
                     | Some fragment => mergeCoverageMap map fragment
                     | None => map
                     end) coverages acc) ↔
    file ∈ dom acc ∨ ∃ fragment, Some fragment ∈ coverages ∧ file ∈ dom fragment).
  { induction coverages as [|coverage rest IH]; intros acc; simpl.
    - split; [by left|]. intros [? | (fragment & Hin & _)]; [done|].
      by apply elem_of_nil in Hin.
    - rewrite IH. destruct coverage as [fragment|].
      + rewrite dom_mergeCoverageMap, elem_of_union. split.
        * intros [[? | ?] | (other & Hin & ?)].
          -- by left.
          -- right. exists fragment. split; [apply list_elem_of_here | done].
          -- right. exists other. split; [by apply list_elem_of_further | done].
        * intros [? | (other & Hin & ?)]; [by left; left|].
          apply elem_of_cons in Hin as [[= ->] | Hin]; [by left; right|].
          right. by exists other.
      + split.
        * intros [? | (other & Hin & ?)]; [by left|].
          right. exists other. split; [by apply list_elem_of_further | done].
        * intros [? | (other & Hin & ?)]; [by left|].
          apply elem_of_cons in Hin as [? | Hin]; [done|].
          right. by exists other. }
  rewrite Hgen. unfold createCoverageMap. rewrite dom_empty_L. split.
  - intros [Hempty | ?]; [by apply not_elem_of_empty in Hempty | done].
  - by right.
Qed.

Section ConverterProperties.

Variable imports : Imports.

Lemma directoryReady_step (dir : string) :
  directoryReady imports dir →
  (present ← exists_ imports dir;
   if present : bool then Ok tt else mkdir imports dir) = Ok tt.
Proof. by intros [-> | [-> ->]]. Qed.

Lemma saveDebugFile_returns payload comment :
  fileSystemWorks imports comment → saveDebugFile imports payload comment = Ok tt.
Proof.
  intros (_ & Hdir & Hwrite). unfold saveDebugFile.
  destruct Hdir as [-> | [-> ->]]; simpl; by rewrite Hwrite.
Qed.

(** With a working file system the function returns the merge of the
    conversions of the scripts it keeps. *)
Lemma convertProfileCoverageToIstanbul_returns cov comment clientRoots :
  fileSystemWorks imports comment →
  convertProfileCoverageToIstanbul imports cov comment clientRoots =
    Ok (mergeAll (convertAll imports (List.filter keepScript (result cov)) clientRoots)).
Proof.
  intros Hfs. pose proof Hfs as (Hcache & _ & _).
  unfold convertProfileCoverageToIstanbul.
  destruct Hcache as [-> | [-> ->]]; simpl;
    by rewrite (saveDebugFile_returns _ _ Hfs).
Qed.

Lemma convertProfileCoverageToIstanbul_dropped pre obj post comment clientRoots :
  keepScript obj = false →
  convertProfileCoverageToIstanbul imports {| result := pre ++ obj :: post |}
    comment clientRoots =
  convertProfileCoverageToIstanbul imports {| result := pre ++ post |}
    comment clientRoots.
Proof.
  intros H. unfold convertProfileCoverageToIstanbul. simpl.
  by rewrite (filter_keepScript_dropped _ _ _ H).
Qed.

Lemma failed_conversion_is_null obj clientRoots :
  getSources imports (url obj) clientRoots = Ok None ∨
  (∃ e, convertToIstanbul imports obj clientRoots = Throw e) →
  catchExc (convertToIstanbul imports obj clientRoots) (λ _, None) = None.
Proof.
  intros [Hnull | [e ->]]; [|done].
  unfold convertToIstanbul. by rewrite Hnull.
Qed.

(** Claim C6.  One script's conversion failure never aborts the batch.
    (1) Whatever the conversions do, with a working file system the function
    returns the merge of the conversions of the scripts it keeps.  (2) A
    script whose conversion fails, because the resolver returns null or
    because an exception is thrown, contributes nothing: the merged map is
    the one of the batch without it.  (3) Every kept script that converts
    successfully contributes: the files of its fragment are in the merged
    map.  (4) In a batch of three kept scripts where the second resolves to
    null, the result is the merge of the fragments of the first and the
    third. *)
Theorem conversion_failure_does_not_abort :
  (∀ cov comment clientRoots,
     fileSystemWorks imports comment →
     convertProfileCoverageToIstanbul imports cov comment clientRoots =
       Ok (mergeAll (convertAll imports (List.filter keepScript (result cov))
                       clientRoots)))
  ∧
  (∀ pre bad post clientRoots,
     getSources imports (url bad) clientRoots = Ok None ∨
     (∃ e, convertToIstanbul imports bad clientRoots = Throw e) →
     mergeAll (convertAll imports (List.filter keepScript (pre ++ bad :: post))
                 clientRoots) =
     mergeAll (convertAll imports (List.filter keepScript (pre ++ post))
                 clientRoots))
  ∧
  (∀ scripts clientRoots obj fragment file,
     obj ∈ scripts → keepScript obj = true →
     convertToIstanbul imports obj clientRoots = Ok (Some fragment) →
     file ∈ dom fragment →
     file ∈ dom (mergeAll (convertAll imports (List.filter keepScript scripts)
                             clientRoots)))
  ∧
  (∀ s1 s2 s3 c1 c3 comment clientRoots,
     fileSystemWorks imports comment →
     keepScript s1 = true → keepScript s2 = true → keepScript s3 = true →
     convertToIstanbul imports s1 clientRoots = Ok (Some c1) →
     getSources imports (url s2) clientRoots = Ok None →
     convertToIstanbul imports s3 clientRoots = Ok (Some c3) →
     convertProfileCoverageToIstanbul imports {| result := [s1; s2; s3] |}
       comment clientRoots =
     Ok (mergeCoverageMap (mergeCoverageMap createCoverageMap c1) c3)).
Proof.
  split; [apply convertProfileCoverageToIstanbul_returns|].
  split; [|split].
  - intros pre bad post clientRoots Hbad.
    apply failed_conversion_is_null in Hbad.
    rewrite !List.filter_app. simpl.
    destruct (keepScript bad); [|done].
    unfold convertAll. rewrite !List.map_app. simpl. rewrite Hbad.
    apply mergeAll_skip_null.
  - intros scripts clientRoots obj fragment file Hin Hkeep Hconv Hfile.
    apply dom_mergeAll. exists fragment. split; [|done].
    unfold convertAll. apply list_elem_of_In, in_map_iff. exists obj. split.
    + by rewrite Hconv.
    + apply filter_In. split; [by apply list_elem_of_In | done].
  - intros s1 s2 s3 c1 c3 comment clientRoots Hfs H1 H2 H3 Hc1 Hnull Hc3.
    rewrite convertProfileCoverageToIstanbul_returns by done.
    simpl. rewrite H1, H2, H3. simpl. rewrite Hc1, Hc3.
    rewrite (failed_conversion_is_null s2 clientRoots) by (by left). done.
Qed.

(** Claim C9, as amended.  Path-based exclusion at the conversion stage.
    (1) A script record whose URL contains [/node_modules/], [/__cypress/] or
    [/__/assets/] is excluded before conversion and contributes nothing:
    the outcome is that of the snapshot without the record.  (2) For the
    resolved source paths the conversion tests nothing itself: it hands the
    converter a callback, which answers [true] exactly on the paths that
    contain one of the three segments.  (3) A file whose path contains one of
    the three segments is absent from the converted coverage map provided
    the converter reports no file that its callback accepts. *)
Theorem conversion_excludes_non_source_paths :
  (∀ pre obj post comment clientRoots,
     includes (url obj) "/node_modules/" = true ∨
     includes (url obj) "/__cypress/" = true ∨
     includes (url obj) "/__/assets/" = true →
     keepScript obj = false ∧
     convertProfileCoverageToIstanbul imports {| result := pre ++ obj :: post |}
       comment clientRoots =
     convertProfileCoverageToIstanbul imports {| result := pre ++ post |}
       comment clientRoots)
  ∧
  (∀ p, excludePath p = true ↔
        (∃ before after, p = before +:+ "/node_modules/" +:+ after) ∨
        (∃ before after, p = before +:+ "/__cypress/" +:+ after) ∨
        (∃ before after, p = before +:+ "/__/assets/" +:+ after))
  ∧
  (converterHonoursExclusion imports →
   ∀ cov comment clientRoots converted file,
     convertProfileCoverageToIstanbul imports cov comment clientRoots = Ok converted →
     is_Some (converted !! file) →
     includes file "/node_modules/" = false ∧
     includes file "/__cypress/" = false ∧
     includes file "/__/assets/" = false).
Proof.
  split; [|split; [apply excludePath_spec|]].
  - intros pre obj post comment clientRoots Hurl.
    assert (Hdrop : keepScript obj = false).
    { rewrite keepScript_spec. unfold excludePath.
      destruct Hurl as [-> | [-> | ->]]; simpl;
        rewrite ?orb_true_r; simpl; apply andb_false_r. }
    split; [done | by apply convertProfileCoverageToIstanbul_dropped].
  - intros Hhonours cov comment clientRoots converted file Hconv Hfile.
    assert (Hresult : converted =
      mergeAll (convertAll imports (List.filter keepScript (result cov)) clientRoots)).
    { unfold convertProfileCoverageToIstanbul in Hconv.
      destruct (exists_ imports (cacheDir imports)) as [present|]; [|done].
      simpl in Hconv.
      destruct (if present then Ok tt else mkdir imports (cacheDir imports));
        [|done].
      simpl in Hconv. destruct (saveDebugFile imports _ comment); [|done].
      simpl in Hconv. by injection Hconv as <-. }
    apply elem_of_dom in Hfile. rewrite Hresult in Hfile.
    apply dom_mergeAll in Hfile as (fragment & Hin & Hfile).
    unfold convertAll in Hin.
    apply list_elem_of_In, in_map_iff in Hin as (obj & Hobj & _).
    unfold convertToIstanbul in Hobj.
    destruct (getSources imports (url obj) clientRoots) as [[[filePath sources]|]|];
      simpl in Hobj; try done.
    destruct (v8toIstanbul imports filePath sources excludePath (functions obj))
      as [coverage|] eqn:Hv8; simpl in Hobj; [|done].
    injection Hobj as ->. apply elem_of_dom in Hfile.
    pose proof (Hhonours _ _ _ _ _ _ Hv8 Hfile) as Hex.
    unfold excludePath in Hex.
    destruct (includes file "/node_modules/"), (includes file "/__cypress/"),
      (includes file "/__/assets/"); done.
Qed.

(** Claim C10.  The scheme restriction at the conversion boundary: a script
    record whose URL begins with none of [file:], [http:] and [https:] is
    dropped by [convertProfileCoverageToIstanbul] and contributes nothing:
    the outcome is that of the snapshot without the record. *)
Theorem conversion_drops_other_schemes pre obj post comment clientRoots :
  startsWith (url obj) "file:" = false →
  startsWith (url obj) "http:" = false →
  startsWith (url obj) "https:" = false →
  keepScript obj = false ∧
  convertProfileCoverageToIstanbul imports {| result := pre ++ obj :: post |}
    comment clientRoots =
  convertProfileCoverageToIstanbul imports {| result := pre ++ post |}
    comment clientRoots.
Proof.
  intros Hfile Hhttp Hhttps.
  assert (Hdrop : keepScript obj = false).
  { rewrite keepScript_spec. by rewrite Hfile, Hhttp, Hhttps. }
  split; [done | by apply convertProfileCoverageToIstanbul_dropped].
Qed.

End ConverterProperties.

(** ** support.js: the backend collection *)

Lemma some_Throw {A} (callback : A → Exc bool) (array : list A) (e : JsError) :
  some callback array = Throw e → ∃ x, x ∈ array ∧ callback x = Throw e.
Proof.
  induction array as [|x rest IH]; simpl; [done|].
  destruct (callback x) as [[]|e'] eqn:Hc; simpl; try done.
  - intros H. destruct (IH H) as (y & Hy & Hcy).
    exists y. split; [by apply list_elem_of_further | done].
  - intros [= ->]. exists x. split; [apply list_elem_of_here | done].
Qed.

(** The only error the filter raises is the [TypeError] of the glob matcher. *)
Lemma filterFilesFromCoverage_Throw minimatch totalCoverage config env spec e :
  filterFilesFromCoverage minimatch totalCoverage config env spec = Throw e →
  e = TypeError.
Proof.
  unfold filterFilesFromCoverage.
  destruct (filterSpecsFromCoverage minimatch totalCoverage config env spec)
    as [kept|e'] eqn:Hspecs; simpl.
  - by rewrite filterExternalFromCoverage_eq.
  - intros [= ->]. apply omitBy_Throw_inv in Hspecs as (key & value & _ & Hthrow).
    unfold isTestFile in Hthrow. cbv zeta in Hthrow.
    destruct (some (λ specPattern, Cypress_minimatch minimatch _ specPattern) _)
      as [found|e'] eqn:Hsome; simpl in Hthrow.
    + by rewrite some_pure in Hthrow.
    + injection Hthrow as ->. apply some_Throw in Hsome as (p & _ & Hp).
      destruct p as [|p]; simpl in Hp; [congruence|].
      destruct (minimatch _ p); congruence.
Qed.



Section SupportProperties.

Variable minimatch : string → string → option bool.
Variable config : Config.
Variable env : Env.
Variable spec : Spec.
Variable testingType : string.
Variable request : string → Response.

Local Abbreviation collectHost' :=
  (collectHost minimatch config env spec request).
Local Abbreviation flag := (expectBackendCoverageOnly (codeCoverageConfig env)).


Lemma collectHost_resolves hostConfig tasks :
  bodyCoverage (request (hostUrl hostConfig)) = None → flag ≠ Some true →
  collectHost' hostConfig tasks = (tasks, Ok tt).
Proof.
  intros Hbody Hflag. unfold collectHost. rewrite Hbody.
  by destruct flag as [[]|].
Qed.

(** The series fails exactly when some item fails after all the items
    before it have succeeded, and with that item's error. *)
Lemma mapSeries_Throw {A}
    (mapper : A → list CombineCoverage → list CombineCoverage * Exc unit)
    (items : list A) (tasks tasks' : list CombineCoverage) (e : JsError) :
  mapSeries mapper items tasks = (tasks', Throw e) ↔
  ∃ pre item post tasks1,
    items = pre ++ item :: post ∧
    mapSeries mapper pre tasks = (tasks1, Ok tt) ∧
    mapper item tasks1 = (tasks', Throw e).
Proof.
  revert tasks. induction items as [|x rest IH]; intros tasks; simpl.
  - split; [done|]. intros ([|??] & ? & ? & ? & ? & _); done.
  - destruct (mapper x tasks) as [tasks1 [[]|e1]] eqn:Hx.
    + rewrite IH. split.
      * intros (pre & item & post & t1 & -> & Hpre & Hitem).
        exists (x :: pre), item, post, t1. simpl. by rewrite Hx.
      * intros ([|y pre] & item & post & t1 & Heq & Hpre & Hitem); simpl in *.
        -- injection Heq as <- <-. injection Hpre as <-. congruence.
        -- injection Heq as <- ->. rewrite Hx in Hpre.
           by exists pre, item, post, t1.
    + split.
      * intros [= <- <-]. by exists [], x, rest, tasks.
      * intros ([|y pre] & item & post & t1 & Heq & Hpre & Hitem); simpl in *.
        -- injection Heq as <- <-. injection Hpre as <-. congruence.
        -- injection Heq as <- ->. by rewrite Hx in Hpre.
Qed.


End SupportProperties.

(** ** The conversion and the collection on the example data *)

Lemma exampleImports_fileSystemWorks (comment : string) :
  fileSystemWorks exampleImports comment.
Proof. split; [by left|]. split; [by left | done]. Defined.

Lemma exampleImports_honours : converterHonoursExclusion exampleImports.
Proof.
  intros filePath sources exclude functions fragment key Hv8 [value Hkey].
  simpl in Hv8. injection Hv8 as <-.
  destruct (exclude filePath) eqn:Hex.
  - by rewrite lookup_empty in Hkey.
  - by apply lookup_singleton_Some in Hkey as [<- _].
Defined.

Lemma conversion_failure_does_not_abort_witness :
  (fileSystemWorks exampleImports "client" ∧
   keepScript (exampleScript "http://localhost:3000/src/a.js") = true ∧
   keepScript (exampleScript "http://localhost:3000/missing/b.js") = true ∧
   keepScript (exampleScript "http://localhost:3000/src/c.js") = true ∧
   getSources exampleImports
     (url (exampleScript "http://localhost:3000/missing/b.js")) ∅ = Ok None) ∧
  convertProfileCoverageToIstanbul exampleImports
    {| result := [exampleScript "http://localhost:3000/src/a.js";
                  exampleScript "http://localhost:3000/missing/b.js";
                  exampleScript "http://localhost:3000/src/c.js"] |}
    "client" ∅
  = Ok (mergeCoverageMap
          (mergeCoverageMap createCoverageMap
             {[ "/app/src/a.js" := exampleFile "/app/src/a.js" 1 1 1 ]})
          {[ "/app/src/c.js" := exampleFile "/app/src/c.js" 1 1 1 ]}).
Proof.
  split; [split; [apply exampleImports_fileSystemWorks | repeat split; reflexivity]|].
  apply (proj2 (proj2 (proj2 (conversion_failure_does_not_abort exampleImports))));
    try reflexivity.
  apply exampleImports_fileSystemWorks.
Defined.

Lemma bundleImports_honours : converterHonoursExclusion bundleImports.
Proof. exact exampleImports_honours. Defined.

Lemma conversion_excludes_non_source_paths_witness :
  (includes (url (exampleScript "http://localhost:3000/node_modules/react/index.js"))
     "/node_modules/" = true ∧
   converterHonoursExclusion bundleImports ∧
   convertProfileCoverageToIstanbul bundleImports
     {| result := [exampleScript "http://localhost:3000/src/a.js"; bundleScript] |}
     "client" ∅
   = Ok {[ "/app/src/a.js" := exampleFile "/app/src/a.js" 1 1 1 ]} ∧
   is_Some (({[ "/app/src/a.js" := exampleFile "/app/src/a.js" 1 1 1 ]}
             : gmap string FileCoverage) !! "/app/src/a.js")) ∧
  (keepScript (exampleScript "http://localhost:3000/node_modules/react/index.js")
     = false ∧
   convertProfileCoverageToIstanbul exampleImports
     {| result := [exampleScript "http://localhost:3000/src/a.js";
                   exampleScript "http://localhost:3000/node_modules/react/index.js";
                   exampleScript "http://localhost:3000/src/c.js"] |}
     "client" ∅
   = convertProfileCoverageToIstanbul exampleImports
       {| result := [exampleScript "http://localhost:3000/src/a.js";
                     exampleScript "http://localhost:3000/src/c.js"] |}
       "client" ∅) ∧
  (includes "/app/src/a.js" "/node_modules/" = false ∧
   includes "/app/src/a.js" "/__cypress/" = false ∧
   includes "/app/src/a.js" "/__/assets/" = false).
Proof.
  assert (Hconv :
    convertProfileCoverageToIstanbul bundleImports
      {| result := [exampleScript "http://localhost:3000/src/a.js"; bundleScript] |}
      "client" ∅
    = Ok {[ "/app/src/a.js" := exampleFile "/app/src/a.js" 1 1 1 ]})
    by (vm_compute; reflexivity).
  assert (Hfile :
    is_Some (({[ "/app/src/a.js" := exampleFile "/app/src/a.js" 1 1 1 ]}
              : gmap string FileCoverage) !! "/app/src/a.js"))
    by (rewrite lookup_singleton_eq; by eexists).
  split; [split; [reflexivity|]; split; [exact bundleImports_honours|];
          split; [exact Hconv | exact Hfile]|].
  split.
  - apply (proj1 (conversion_excludes_non_source_paths exampleImports)
             [exampleScript "http://localhost:3000/src/a.js"]
             (exampleScript "http://localhost:3000/node_modules/react/index.js")
             [exampleScript "http://localhost:3000/src/c.js"] "client" ∅).
    left. reflexivity.
  - exact (proj2 (proj2 (conversion_excludes_non_source_paths bundleImports))
             bundleImports_honours _ "client" ∅ _ "/app/src/a.js" Hconv Hfile).
Defined.

(** The exclusion of a resolved source path is the converter's, the
    conversion tests the URL only.  The URL of [bundleScript] contains none
    of the three segments, so the script is kept, and its source resolves to
    a file under [/node_modules/], which the callback accepts.  With a
    converter that reports every file it is given, that file is in the
    converted coverage map: the script contributes. *)
Lemma resolved_path_exclusion_is_the_converters :
  keepScript bundleScript = true ∧
  getSources reportingImports (url bundleScript) ∅
    = Ok (Some ("/app/node_modules/react/index.js", tt)) ∧
  includes "/app/node_modules/react/index.js" "/node_modules/" = true ∧
  excludePath "/app/node_modules/react/index.js" = true ∧
  convertProfileCoverageToIstanbul reportingImports
    {| result := [bundleScript] |} "client" ∅
  = Ok {[ "/app/node_modules/react/index.js" :=
            exampleFile "/app/node_modules/react/index.js" 1 1 1 ]} ∧
  convertProfileCoverageToIstanbul reportingImports {| result := [] |} "client" ∅
  = Ok ∅.
Proof. repeat split; vm_compute; reflexivity. Qed.

Lemma conversion_drops_other_schemes_witness :
  (startsWith (url (exampleScript "webpack://app/src/a.js")) "file:" = false ∧
   startsWith (url (exampleScript "webpack://app/src/a.js")) "http:" = false ∧
   startsWith (url (exampleScript "webpack://app/src/a.js")) "https:" = false) ∧
  keepScript (exampleScript "webpack://app/src/a.js") = false ∧
  convertProfileCoverageToIstanbul exampleImports
    {| result := [exampleScript "http://localhost:3000/src/a.js";
                  exampleScript "webpack://app/src/a.js"] |}
    "client" ∅
  = convertProfileCoverageToIstanbul exampleImports
      {| result := [exampleScript "http://localhost:3000/src/a.js"] |}
      "client" ∅.
Proof.
  split; [repeat split; reflexivity|].
  apply (conversion_drops_other_schemes exampleImports
           [exampleScript "http://localhost:3000/src/a.js"]
           (exampleScript "webpack://app/src/a.js") [] "client" ∅);
    reflexivity.
Defined.

(** Origins of the [blob:] and [data:] kind, and bundler origins, are dropped. *)
Example other_schemes_dropped :
  keepScript (exampleScript "blob:http://localhost:3000/4f1c") = false ∧
  keepScript (exampleScript "data:text/javascript,void 0") = false ∧
  keepScript (exampleScript "webpack://app/src/a.js") = false ∧
  keepScript (exampleScript "file:///app/src/a.js") = true ∧
  keepScript (exampleScript "https://localhost/src/a.js") = true.
Proof. repeat split; reflexivity. Qed.


(* ===================================================================== *)
(** * Part III. Further properties of the code                            *)
(* ===================================================================== *)

(** ** support-utils.js *)

(** The two copies of the infrastructure pass agree on a map whose entries
    record their own key as [path], and so do the two copies of the filter. *)
Theorem filter_copies_agree (totalCoverage : gmap string FileCoverage) :
  (∀ filePath value, totalCoverage !! filePath = Some value → path value = filePath) →
  filterExternalFromCoverage_cjs totalCoverage =
    filterExternalFromCoverage totalCoverage
  ∧ ∀ minimatch config env spec,
      filterFilesFromCoverage_cjs minimatch totalCoverage config env spec =
      filterFilesFromCoverage minimatch totalCoverage config env spec.
Proof.
  intros Hpath.
  assert (Hsame : ∀ m : gmap string FileCoverage, m ⊆ totalCoverage →
    filterExternalFromCoverage_cjs m = filterExternalFromCoverage m).
  { intros m Hsub. rewrite filterExternalFromCoverage_cjs_eq,
      filterExternalFromCoverage_eq. f_equal.
    apply map_filter_ext. intros key value Hk. simpl.
    eapply lookup_weaken in Hk; [|exact Hsub]. by rewrite (Hpath _ _ Hk). }
  split; [by apply Hsame|].
  intros minimatch config env spec.
  unfold filterFilesFromCoverage_cjs, filterFilesFromCoverage.
  destruct (filterSpecsFromCoverage minimatch totalCoverage config env spec)
    as [kept|e] eqn:Hspecs; simpl; [|done].
  by rewrite (Hsame kept (omitBy_subseteq _ _ _ Hspecs)).
Qed.

Lemma exampleCoverage_paths (filePath : string) (value : FileCoverage) :
  exampleCoverage !! filePath = Some value → path value = filePath.
Proof.
  unfold exampleCoverage. intros H.
  apply lookup_insert_Some in H as [[<- <-] | [_ H]]; [done|].
  apply lookup_insert_Some in H as [[<- <-] | [_ H]]; [done|].
  by apply lookup_singleton_Some in H as [<- <-].
Defined.

Lemma filter_copies_agree_witness :
  (∀ filePath value, exampleCoverage !! filePath = Some value → path value = filePath) ∧
  filterExternalFromCoverage_cjs exampleCoverage =
    filterExternalFromCoverage exampleCoverage.
Proof.
  split; [exact exampleCoverage_paths|].
  exact (proj1 (filter_copies_agree exampleCoverage exampleCoverage_paths)).
Defined.

Lemma endsWith_empty (w : string) : endsWith w "" = true.
Proof. apply endsWith_spec. exists w. by rewrite append_empty_r. Qed.

Section MoreFilterProperties.

Variable minimatch : string → string → option bool.

Local Abbreviation relativeName spec filePath :=
  (replaceWithEmpty filePath (replaceWithEmpty (absolute spec) (relative spec))).

(** A pattern that is the empty string removes every file: every name ends
    with the empty string.  When the empty string is among the configured
    patterns and the self-test pass completes, nothing is left, in either
    copy of the filter. *)
Theorem empty_pattern_removes_everything totalCoverage config env spec :
  PString "" ∈ getCypressExcludePatterns config env spec →
  (∃ kept, filterSpecsFromCoverage minimatch totalCoverage config env spec = Ok kept) →
  filterSpecsFromCoverage minimatch totalCoverage config env spec = Ok ∅ ∧
  filterFilesFromCoverage minimatch totalCoverage config env spec = Ok ∅ ∧
  filterFilesFromCoverage_cjs minimatch totalCoverage config env spec = Ok ∅.
Proof.
  intros Hin [kept Hkept].
  assert (kept = ∅) as ->.
  { pose proof Hkept as [Hall ->]%omitBy_Ok_inv.
    apply map_eq. intros key. rewrite lookup_empty.
    apply map_lookup_filter_None. right. intros value Hk. simpl.
    destruct (Hall key value Hk) as [omit Ho]. rewrite Ho.
    assert (omit = true) as ->; [|done].
    apply (isTestFile_Ok minimatch _ _ _ _ Ho).
    exists (PString ""). split; [done|]. right. apply endsWith_empty. }
  split; [done|].
  unfold filterFilesFromCoverage, filterFilesFromCoverage_cjs. rewrite Hkept. simpl.
  rewrite filterExternalFromCoverage_eq, filterExternalFromCoverage_cjs_eq. simpl.
  by rewrite !map_filter_empty.
Qed.

(** Configuring more patterns never brings a file back: if every pattern of
    one configuration is a pattern of another, the second keeps a part of
    what the first keeps. *)
Theorem more_patterns_remove_more totalCoverage config1 env1 config2 env2 spec
    kept1 kept2 :
  (∀ p, p ∈ getCypressExcludePatterns config1 env1 spec →
        p ∈ getCypressExcludePatterns config2 env2 spec) →
  filterSpecsFromCoverage minimatch totalCoverage config1 env1 spec = Ok kept1 →
  filterSpecsFromCoverage minimatch totalCoverage config2 env2 spec = Ok kept2 →
  kept2 ⊆ kept1.
Proof.
  intros Hincl [Hall1 ->]%omitBy_Ok_inv [Hall2 ->]%omitBy_Ok_inv.
  apply map_subseteq_spec. intros key value.
  rewrite !map_lookup_filter_Some. simpl. intros [Hk Ho2]. split; [done|].
  destruct (Hall1 key value Hk) as [[] Ho1]; [|done].
  apply (isTestFile_Ok minimatch) in Ho1. destruct (proj1 Ho1 eq_refl) as (p & Hp & Hm).
  apply (isTestFile_Ok minimatch) in Ho2.
  assert (false = true); [|done]. apply Ho2. exists p. split; [by apply Hincl | done].
Qed.

(** With no spec pattern set, the self-test pass throws a [TypeError] on
    every map that is not empty, whatever the exclude list and whatever the
    glob matcher; on the empty map the filter returns the empty map under
    every configuration. *)
Theorem unset_spec_pattern_throws totalCoverage config env spec :
  (orElse (specPattern config) (testFiles config) = Undefined →
   totalCoverage ≠ ∅ →
   filterSpecsFromCoverage minimatch totalCoverage config env spec = Throw TypeError ∧
   filterFilesFromCoverage minimatch totalCoverage config env spec = Throw TypeError ∧
   filterFilesFromCoverage_cjs minimatch totalCoverage config env spec = Throw TypeError)
  ∧ filterFilesFromCoverage minimatch ∅ config env spec = Ok ∅
  ∧ filterFilesFromCoverage_cjs minimatch ∅ config env spec = Ok ∅.
Proof.
  split.
  - intros Hunset Hne.
    assert (Hthrows : ∀ key,
      isTestFile minimatch (getCypressExcludePatterns config env spec) spec key
      = Throw TypeError).
    { intros key. unfold getCypressExcludePatterns. rewrite Hunset.
      unfold isTestFile. cbv zeta.
      by destruct (match codeCoverage env with Some cc => exclude cc | None => Undefined end)
        as [|p|l]; simpl; try destruct (negb (String.eqb p "")). }
    assert (Hspecs : filterSpecsFromCoverage minimatch totalCoverage config env spec
                     = Throw TypeError).
    { pose proof (omitBy_outcome totalCoverage
        (λ _ filePath, isTestFile minimatch (getCypressExcludePatterns config env spec)
                         spec filePath)) as Hout.
      unfold filterSpecsFromCoverage. cbv zeta.
      destruct (omitBy totalCoverage _) as [kept|e].
      - destruct Hout as [Hall _].
        apply map_choose in Hne as (key & value & Hk).
        destruct (Hall key value Hk) as [omit Ho]. rewrite Hthrows in Ho. done.
      - destruct Hout as (key & value & _ & Hthrow).
        rewrite Hthrows in Hthrow. by injection Hthrow as <-. }
    split; [done|].
    unfold filterFilesFromCoverage, filterFilesFromCoverage_cjs. by rewrite Hspecs.
  - unfold filterFilesFromCoverage, filterFilesFromCoverage_cjs, filterSpecsFromCoverage.
    cbv zeta. rewrite omitBy_empty. simpl.
    unfold filterExternalFromCoverage, filterExternalFromCoverage_cjs.
    by rewrite !omitBy_empty.
Qed.

End MoreFilterProperties.

Lemma globMatch_returns totalCoverage config env spec :
  Forall (λ q, q ≠ PUndefined) (getCypressExcludePatterns config env spec) →
  ∃ kept, filterSpecsFromCoverage globMatch totalCoverage config env spec = Ok kept.
Proof.
  intros Hall. apply filterSpecsFromCoverage_returns.
  intros p filePath Hp _. by eapply globMatch_accepts.
Defined.

Lemma empty_pattern_removes_everything_witness :
  (PString "" ∈ getCypressExcludePatterns exampleConfig emptyPatternEnv exampleSpec ∧
   ∃ kept, filterSpecsFromCoverage globMatch exampleCoverage exampleConfig
             emptyPatternEnv exampleSpec = Ok kept) ∧
  filterFilesFromCoverage globMatch exampleCoverage exampleConfig emptyPatternEnv
    exampleSpec = Ok ∅.
Proof.
  assert (Hin : PString "" ∈
                getCypressExcludePatterns exampleConfig emptyPatternEnv exampleSpec).
  { apply list_elem_of_further, list_elem_of_here. }
  assert (Hret : ∃ kept, filterSpecsFromCoverage globMatch exampleCoverage
                           exampleConfig emptyPatternEnv exampleSpec = Ok kept).
  { apply globMatch_returns. repeat constructor; discriminate. }
  split; [by split|].
  exact (proj1 (proj2 (empty_pattern_removes_everything globMatch exampleCoverage
                         exampleConfig emptyPatternEnv exampleSpec Hin Hret))).
Defined.

Lemma more_patterns_remove_more_witness :
  ∃ kept1 kept2,
    (∀ p, p ∈ getCypressExcludePatterns exampleConfig noEnv exampleSpec →
          p ∈ getCypressExcludePatterns exampleConfig excludeEnv exampleSpec) ∧
    filterSpecsFromCoverage globMatch exampleCoverage exampleConfig noEnv exampleSpec
      = Ok kept1 ∧
    filterSpecsFromCoverage globMatch exampleCoverage exampleConfig excludeEnv
      exampleSpec = Ok kept2 ∧
    kept2 ⊆ kept1.
Proof.
  destruct (globMatch_returns exampleCoverage exampleConfig noEnv exampleSpec)
    as [kept1 H1]; [repeat constructor; discriminate|].
  destruct (globMatch_returns exampleCoverage exampleConfig excludeEnv exampleSpec)
    as [kept2 H2]; [repeat constructor; discriminate|].
  assert (Hincl : ∀ p,
    p ∈ getCypressExcludePatterns exampleConfig noEnv exampleSpec →
    p ∈ getCypressExcludePatterns exampleConfig excludeEnv exampleSpec).
  { intros p Hp. apply list_elem_of_singleton in Hp as ->. apply list_elem_of_here. }
  exists kept1, kept2. split; [exact Hincl|]. split; [exact H1|]. split; [exact H2|].
  exact (more_patterns_remove_more globMatch exampleCoverage exampleConfig noEnv
           exampleConfig excludeEnv exampleSpec kept1 kept2 Hincl H1 H2).
Defined.

Lemma unset_spec_pattern_throws_witness :
  (orElse (specPattern unsetConfig) (testFiles unsetConfig) = Undefined ∧
   sourceCoverage ≠ ∅) ∧
  filterFilesFromCoverage globMatch sourceCoverage unsetConfig excludeEnv exampleSpec
  = Throw TypeError.
Proof.
  assert (Hne : sourceCoverage ≠ ∅).
  { unfold sourceCoverage. apply insert_non_empty. }
  split; [by split|].
  exact (proj1 (proj2 (proj1 (unset_spec_pattern_throws globMatch sourceCoverage
                                unsetConfig excludeEnv exampleSpec) eq_refl Hne))).
Defined.

(** ** Relative names *)

Section RelativeNames.

Variable minimatch : string → string → option bool.

Local Abbreviation relativeName spec filePath :=
  (replaceWithEmpty filePath (replaceWithEmpty (absolute spec) (relative spec))).

(** When the absolute path of the spec is a directory followed by its
    relative path, and the relative path occurs nowhere earlier in it, a file
    under that directory is tested under its path relative to it, a file
    whose path does not contain the directory is tested under its path as it
    is, and the running spec file itself is omitted as soon as its relative
    path is one of the patterns that the matcher accepts. *)
Theorem files_are_tested_by_relative_name (spec : Spec) (dir : string) :
  absolute spec = dir +:+ relative spec →
  (∀ before after, absolute spec = before +:+ relative spec +:+ after →
                   (String.length dir ≤ String.length before)%nat) →
  (∀ rest, relativeName spec (dir +:+ rest) = rest) ∧
  (∀ filePath, includes filePath dir = false → relativeName spec filePath = filePath) ∧
  (∀ patterns,
     PString (relative spec) ∈ patterns →
     (∀ p, p ∈ patterns →
           ∃ matched, Cypress_minimatch minimatch (relative spec) p = Ok matched) →
     isTestFile minimatch patterns spec (absolute spec) = Ok true).
Proof.
  intros Habs Hfirst.
  assert (Hdir : replaceWithEmpty (absolute spec) (relative spec) = dir).
  { rewrite Habs.
    pose proof (replaceWithEmpty_first dir (relative spec) "") as H.
    rewrite !append_empty_r in H. apply H. intros before' after' Heq.
    apply (Hfirst before' after'). by rewrite Habs. }
  rewrite Hdir. split; [intros rest; apply replaceWithEmpty_prefix|].
  split; [intros filePath; apply replaceWithEmpty_absent|].
  intros patterns Hin Haccept.
  assert (Hname : relativeName spec (absolute spec) = relative spec).
  { rewrite Hdir, Habs. apply replaceWithEmpty_prefix. }
  destruct (isTestFile_returns minimatch patterns spec (absolute spec)) as [omit Ho].
  { intros p Hp. rewrite Hname. by apply Haccept. }
  rewrite Ho. f_equal. apply (isTestFile_Ok minimatch _ _ _ _ Ho).
  exists (PString (relative spec)). split; [done|]. right. rewrite Hname. simpl.
  apply endsWith_spec. by exists "".
Qed.

End RelativeNames.

Lemma files_are_tested_by_relative_name_witness :
  (absolute exampleSpec = "/app/" +:+ relative exampleSpec ∧
   (∀ before after, absolute exampleSpec = before +:+ relative exampleSpec +:+ after →
                    (String.length "/app/" ≤ String.length before)%nat)) ∧
  replaceWithEmpty "/app/src/foo.js"
    (replaceWithEmpty (absolute exampleSpec) (relative exampleSpec)) = "src/foo.js".
Proof.
  assert (Hfirst : ∀ before after,
    absolute exampleSpec = before +:+ relative exampleSpec +:+ after →
    (String.length "/app/" ≤ String.length before)%nat).
  { intros before after Heq. simpl in Heq.
    do 5 (destruct before as [|? before]; [discriminate|injection Heq as _ Heq]).
    simpl. lia. }
  split; [split; [reflexivity | exact Hfirst]|].
  exact (proj1 (files_are_tested_by_relative_name globMatch exampleSpec "/app/"
                  eq_refl Hfirst) "src/foo.js").
Defined.

(** ** Filtering and merging *)

Lemma filter_by_key_union_with {V} (P : string → Prop)
    `{!∀ kv : string * V, Decision (P kv.1)}
    (g : V → V → option V) (A B : gmap string V) :
  (∀ x y, is_Some (g x y)) →
  filter (λ kv, P kv.1) (union_with g A B) =
  union_with g (filter (λ kv, P kv.1) A) (filter (λ kv, P kv.1) B).
Proof.
  intros Hg. apply map_eq. intros key.
  rewrite lookup_union_with, !map_lookup_filter, lookup_union_with.
  destruct (A !! key) as [x|], (B !! key) as [y|]; simpl;
    try (destruct (Hg x y) as [z Hz]; rewrite Hz; simpl);
    repeat case_guard; simpl in *; rewrite ?Hz; done.
Qed.

Section FilterAndMerge.

Variable minimatch : string → string → option bool.

(** Filtering distributes over merging (ES-module copy): when the filter
    returns on two fragments, it returns on their merge, and the result is
    the merge of the two filtered fragments. *)
Theorem filter_distributes_over_merge A B config env spec keptA keptB :
  filterFilesFromCoverage minimatch A config env spec = Ok keptA →
  filterFilesFromCoverage minimatch B config env spec = Ok keptB →
  filterFilesFromCoverage minimatch (mergeCoverageMap A B) config env spec =
    Ok (mergeCoverageMap keptA keptB).
Proof.
  set (patterns := getCypressExcludePatterns config env spec).
  assert (Hshape : ∀ (X kept : gmap string FileCoverage),
    filterFilesFromCoverage minimatch X config env spec = Ok kept →
    (∀ key value, X !! key = Some value →
       ∃ omit, isTestFile minimatch patterns spec key = Ok omit) ∧
    kept = filter (λ kv, isExternal kv.1 = false)
             (filter (λ kv, isTestFile minimatch patterns spec kv.1 = Ok false) X)).
  { intros X kept. unfold filterFilesFromCoverage.
    destruct (filterSpecsFromCoverage minimatch X config env spec) as [k|e] eqn:Hs;
      simpl; [|done].
    rewrite filterExternalFromCoverage_eq. simpl. intros [= <-].
    apply omitBy_Ok_inv in Hs as [Hall ->]. by split. }
  intros [HallA ->]%Hshape [HallB ->]%Hshape.
  assert (Hall : ∀ key value, mergeCoverageMap A B !! key = Some value →
    ∃ omit, isTestFile minimatch patterns spec key = Ok omit).
  { intros key value. unfold mergeCoverageMap. rewrite lookup_union_with.
    destruct (A !! key) as [x|] eqn:Ha; [intros _; by eapply HallA|].
    destruct (B !! key) as [y|] eqn:Hb; [intros _; by eapply HallB | done]. }
  unfold filterFilesFromCoverage, filterSpecsFromCoverage. cbv zeta. fold patterns.
  rewrite (omitBy_returns _ _ Hall). simpl.
  rewrite filterExternalFromCoverage_eq. simpl. f_equal.
  unfold mergeCoverageMap. cbv beta.
  rewrite (filter_by_key_union_with
             (λ key, isTestFile minimatch patterns spec key = Ok false)) by eauto.
  by rewrite (filter_by_key_union_with (λ key, isExternal key = false)) by eauto.
Qed.

End FilterAndMerge.

Lemma filter_distributes_over_merge_witness :
  ∃ keptA keptB,
    filterFilesFromCoverage globMatch fragmentA exampleConfig excludeEnv exampleSpec
      = Ok keptA ∧
    filterFilesFromCoverage globMatch exampleCoverage exampleConfig excludeEnv
      exampleSpec = Ok keptB ∧
    filterFilesFromCoverage globMatch (mergeCoverageMap fragmentA exampleCoverage)
      exampleConfig excludeEnv exampleSpec
    = Ok (mergeCoverageMap keptA keptB).
Proof.
  assert (Hpatterns : Forall (λ q, q ≠ PUndefined)
            (getCypressExcludePatterns exampleConfig excludeEnv exampleSpec))
    by (repeat constructor; discriminate).
  assert (Hreturns : ∀ X, ∃ kept,
    filterFilesFromCoverage globMatch X exampleConfig excludeEnv exampleSpec = Ok kept).
  { intros X.
    destruct (globMatch_returns X exampleConfig excludeEnv exampleSpec Hpatterns)
      as [kept Hk].
    unfold filterFilesFromCoverage. rewrite Hk. simpl.
    rewrite filterExternalFromCoverage_eq. simpl. eauto. }
  destruct (Hreturns fragmentA) as [keptA HA].
  destruct (Hreturns exampleCoverage) as [keptB HB].
  exists keptA, keptB. split; [exact HA|]. split; [exact HB|].
  exact (filter_distributes_over_merge globMatch fragmentA exampleCoverage
           exampleConfig excludeEnv exampleSpec keptA keptB HA HB).
Defined.

(** ** support.js: saved hosts *)

Lemma find_app_None {A} (test : A → bool) (l : list A) (x : A) :
  List.find test l = None → List.find test (l ++ [x]) = List.find test [x].
Proof.
  induction l as [|y l IH]; simpl; [done|].
  destruct (test y); [done | exact IH].
Qed.

Lemma saveHost_cases clientRoots ssrCoveragePath win hostObjects :
  saveHost clientRoots ssrCoveragePath win hostObjects = hostObjects ∨
  ∃ location,
    win = Some location ∧ host location ≠ "" ∧
    (∀ saved, saved ∈ hostObjects →
       hostUrl saved ≠ protocol location +:+ "//" +:+ host location +:+ ssrCoveragePath) ∧
    saveHost clientRoots ssrCoveragePath win hostObjects =
      hostObjects ++
      [{| hostUrl := protocol location +:+ "//" +:+ host location +:+ ssrCoveragePath;
          hostProjectRoot :=
            clientRoots !! (protocol location +:+ "//" +:+ host location);
          hostComment := "ssr - " +:+ host location |}].
Proof.
  unfold saveHost. destruct win as [location|]; [|by left].
  destruct (String.eqb (host location) "") eqn:Hhost; [by left|].
  destruct (List.find _ hostObjects) as [saved|] eqn:Hfind; [by left|].
  right. exists location. split; [done|].
  split; [by apply String.eqb_neq|]. split; [|done].
  intros saved Hin Hurl.
  pose proof (find_none _ _ Hfind saved (proj1 (list_elem_of_In _ _) Hin)) as Hno.
  simpl in Hno. apply String.eqb_neq in Hno. done.
Qed.

Lemma saveHost_appends_fresh clientRoots ssrCoveragePath win hostObjects :
  (∃ added, saveHost clientRoots ssrCoveragePath win hostObjects = hostObjects ++ added ∧
            (length added ≤ 1)%nat) ∧
  (NoDup (hostUrl <$> hostObjects) →
   NoDup (hostUrl <$> saveHost clientRoots ssrCoveragePath win hostObjects)).
Proof.
  destruct (saveHost_cases clientRoots ssrCoveragePath win hostObjects)
    as [Hsame | (location & -> & Hhost & Hfresh & Hadd)].
  - rewrite !Hsame.
    split; [exists []; split; [by rewrite app_nil_r | simpl; lia] | done].
  - rewrite Hadd. split; [eexists; split; [done | simpl; lia]|].
    intros Hnodup. rewrite fmap_app. apply NoDup_app. split; [done|].
    split; [|apply NoDup_singleton].
    intros url (saved & -> & Hin)%list_elem_of_fmap Hnew.
    apply list_elem_of_singleton in Hnew. by apply (Hfresh saved Hin).
Qed.

(** [saveHost] keeps the saved hosts as they are and adds at most one at the
    end; it never adds a URL that is already saved, so the URLs stay without
    duplicates; and saving the same window twice is the same as saving it
    once. *)
Theorem saveHost_keeps_urls_unique clientRoots ssrCoveragePath win hostObjects :
  (∃ added, saveHost clientRoots ssrCoveragePath win hostObjects = hostObjects ++ added ∧
            (length added ≤ 1)%nat) ∧
  (NoDup (hostUrl <$> hostObjects) →
   NoDup (hostUrl <$> saveHost clientRoots ssrCoveragePath win hostObjects)) ∧
  saveHost clientRoots ssrCoveragePath win
    (saveHost clientRoots ssrCoveragePath win hostObjects)
  = saveHost clientRoots ssrCoveragePath win hostObjects.
Proof.
  destruct (saveHost_appends_fresh clientRoots ssrCoveragePath win hostObjects)
    as [Happend Hnodup].
  split; [exact Happend|]. split; [exact Hnodup|].
  destruct (saveHost_cases clientRoots ssrCoveragePath win hostObjects)
    as [Hsame | (location & -> & Hhost & Hfresh & Hadd)].
  - by rewrite !Hsame.
  - rewrite Hadd. unfold saveHost at 1. apply String.eqb_neq in Hhost. rewrite Hhost.
    cbv zeta. rewrite find_app_None.
    + simpl. by rewrite String.eqb_refl.
    + destruct (List.find _ hostObjects) as [saved|] eqn:Hfind; [|done].
      apply find_some in Hfind as [Hin Hurl]. simpl in Hurl.
      apply String.eqb_eq in Hurl. apply list_elem_of_In in Hin.
      by destruct (Hfresh saved Hin).
Qed.



Lemma saveHost_keeps_urls_unique_witness :
  NoDup (hostUrl <$> savedHosts ∅ (Some "/__coverage__") exampleWindows) ∧
  NoDup (hostUrl <$>
           saveHost ∅ "/__coverage__"
             (Some {| protocol := "https:"; host := "example.org" |})
             (savedHosts ∅ (Some "/__coverage__") exampleWindows)).
Proof.
  assert (H : NoDup (hostUrl <$> savedHosts ∅ (Some "/__coverage__") exampleWindows)).
  { repeat constructor; simpl; rewrite ?elem_of_cons, ?elem_of_nil;
      intros H; repeat destruct H as [H|H]; discriminate || done. }
  split; [exact H|].
  exact (proj1 (proj2 (saveHost_keeps_urls_unique ∅ "/__coverage__"
           (Some {| protocol := "https:"; host := "example.org" |})
           (savedHosts ∅ (Some "/__coverage__") exampleWindows))) H).
Defined.


(** ** support.js: what is sent, and what the hook does to the task list *)

Section MoreSupportProperties.

Variable minimatch : string → string → option bool.
Variable config : Config.
Variable env : Env.
Variable spec : Spec.
Variable testingType : string.
Variable request : string → Response.

Local Abbreviation collectHost' :=
  (collectHost minimatch config env spec request).
Local Abbreviation hook :=
  (collectBackendCoverage minimatch config env spec testingType request).
Local Abbreviation flag := (expectBackendCoverageOnly (codeCoverageConfig env)).

Lemma sendCoverage_outcome coverage comment projectRoot tasks :
  match sendCoverage minimatch config env spec coverage comment projectRoot tasks with
  | (tasks', Ok _) =>
      ∃ totalCoverage,
        filterFilesFromCoverage minimatch coverage config env spec = Ok totalCoverage ∧
        tasks' = tasks ++ [{| taskProjectRoot := projectRoot;
                              taskCoverage := totalCoverage |}] ∧
        totalCoverage ⊆ coverage ∧
        ∀ filePath, is_Some (totalCoverage !! filePath) → ¬ infrastructure filePath
  | (tasks', Throw e) => tasks' = tasks ∧ e = TypeError
  end.
Proof.
  unfold sendCoverage.
  destruct (filterFilesFromCoverage minimatch coverage config env spec)
    as [totalCoverage|e] eqn:Hfilter.
  - exists totalCoverage. split; [done|]. split; [done|].
    unfold filterFilesFromCoverage in Hfilter.
    destruct (filterSpecsFromCoverage minimatch coverage config env spec)
      as [kept|] eqn:Hspecs; simpl in Hfilter; [|done].
    rewrite filterExternalFromCoverage_eq in Hfilter. simpl in Hfilter.
    injection Hfilter as <-. split.
    + etrans; [apply map_filter_subseteq | by eapply omitBy_subseteq].
    + intros filePath [value [_ Hext]%map_lookup_filter_Some].
      rewrite <- isExternal_spec. simpl in Hext. congruence.
  - split; [done | by eapply filterFilesFromCoverage_Throw].
Qed.

(** [sendCoverage] issues exactly one task, with the given project root and
    the filtered coverage: a part of the coverage it was given that holds no
    bundler-synthetic file.  When the filter throws, which can only be the
    [TypeError] of the glob matcher, no task is issued. *)
Theorem sendCoverage_sends_filtered coverage comment projectRoot tasks :
  match sendCoverage minimatch config env spec coverage comment projectRoot tasks with
  | (tasks', Ok _) =>
      ∃ totalCoverage,
        filterFilesFromCoverage minimatch coverage config env spec = Ok totalCoverage ∧
        tasks' = tasks ++ [{| taskProjectRoot := projectRoot;
                              taskCoverage := totalCoverage |}] ∧
        totalCoverage ⊆ coverage ∧
        ∀ filePath, is_Some (totalCoverage !! filePath) → ¬ infrastructure filePath
  | (tasks', Throw e) => tasks' = tasks ∧ e = TypeError
  end.
Proof. apply sendCoverage_outcome. Qed.

(** One host leaves the tasks issued so far in place and adds at most one. *)
Lemma collectHost_appends hostConfig tasks :
  ∃ added, (collectHost' hostConfig tasks).1 = tasks ++ added ∧
           (length added ≤ 1)%nat ∧
           Forall (λ task, ∀ filePath, is_Some (taskCoverage task !! filePath) →
                                       ¬ infrastructure filePath) added.
Proof.
  unfold collectHost.
  destruct (bodyCoverage (request (hostUrl hostConfig))) as [coverage|].
  - pose proof (sendCoverage_outcome coverage (hostComment hostConfig)
                  (hostProjectRoot hostConfig) tasks) as Hsend.
    destruct (sendCoverage _ _ _ _ _ _ _ _) as [tasks' [[]|e]].
    + destruct Hsend as (total & _ & -> & _ & Hclean).
      eexists. split; [done|]. split; [simpl; lia|]. by repeat constructor.
    + destruct Hsend as [-> _]. exists []. rewrite app_nil_r.
      split; [done|]. split; [simpl; lia | constructor].
  - exists []. rewrite app_nil_r.
    destruct (default false flag); (split; [done|]); (split; [simpl; lia | constructor]).
Qed.

(** The hook only appends to the task list: whatever its outcome, the tasks
    issued before it are still there, in order; it issues at most one task per
    host; and no task it issues carries a bundler-synthetic file. *)
Theorem hook_only_appends hostObjects tasks :
  ∃ added,
    (hook hostObjects tasks).1 = tasks ++ added ∧
    (length added ≤ length (finalHostConfigs env hostObjects))%nat ∧
    Forall (λ task, ∀ filePath, is_Some (taskCoverage task !! filePath) →
                                ¬ infrastructure filePath) added.
Proof.
  assert (Hseries : ∀ hosts tasks0, ∃ added,
    (mapSeries collectHost' hosts tasks0).1 = tasks0 ++ added ∧
    (length added ≤ length hosts)%nat ∧
    Forall (λ task, ∀ filePath, is_Some (taskCoverage task !! filePath) →
                                ¬ infrastructure filePath) added).
  { induction hosts as [|hostConfig rest IH]; intros tasks0; simpl.
    - exists []. rewrite app_nil_r. split; [done|]. split; [simpl; lia | constructor].
    - destruct (collectHost_appends hostConfig tasks0) as (added1 & H1 & Hlen1 & Hclean1).
      destruct (collectHost' hostConfig tasks0) as [tasks1 [[]|e]]; simpl in H1; subst.
      + destruct (IH (tasks0 ++ added1)) as (added2 & H2 & Hlen2 & Hclean2).
        exists (added1 ++ added2). rewrite H2, app_assoc. split; [done|].
        split; [rewrite length_app; simpl; lia | by apply Forall_app].
      + exists added1. split; [done|]. split; [simpl; lia | done]. }
  unfold collectBackendCoverage.
  destruct (negb (String.eqb testingType "e2e") ||
            negb (String.eqb (default "integration" (specType spec)) "integration")).
  - exists []. rewrite app_nil_r. split; [done|]. split; [simpl; lia | constructor].
  - apply Hseries.
Qed.

(** When the hook rejects, the series has stopped at the failing host: the
    task list is the one reached after the hosts before it, and neither the
    failing host nor any later host has issued a task.  It rejects only while
    end-to-end tests of an integration spec are running. *)
Theorem hook_failure_stops_the_series hostObjects tasks tasks' e :
  hook hostObjects tasks = (tasks', Throw e) →
  testingType = "e2e" ∧ default "integration" (specType spec) = "integration" ∧
  ∃ pre hostConfig post,
    finalHostConfigs env hostObjects = pre ++ hostConfig :: post ∧
    mapSeries collectHost' pre tasks = (tasks', Ok tt) ∧
    collectHost' hostConfig tasks' = (tasks', Throw e).
Proof.
  unfold collectBackendCoverage.
  destruct (String.eqb testingType "e2e") eqn:He2e; simpl; [|done].
  destruct (String.eqb (default "integration" (specType spec)) "integration")
    eqn:Hint; simpl; [|done].
  apply String.eqb_eq in He2e, Hint.
  intros (pre & hostConfig & post & tasks1 & Hhosts & Hpre & Hhost)%mapSeries_Throw.
  split; [done|]. split; [done|]. exists pre, hostConfig, post.
  assert (tasks' = tasks1) as ->.
  { pose proof (f_equal fst Hhost) as Hfst. simpl in Hfst. rewrite <- Hfst.
    unfold collectHost in *.
    destruct (bodyCoverage (request (hostUrl hostConfig))) as [coverage|].
    - pose proof (sendCoverage_outcome coverage (hostComment hostConfig)
                    (hostProjectRoot hostConfig) tasks1) as Hsend.
      rewrite Hhost in Hsend. by destruct Hsend as [-> _].
    - by destruct (default false flag). }
  done.
Qed.

(** With [expectBackendCoverageOnly] false or unset the rejection of lines
    229-235 is not reached: neither the promise of a host nor the hook ends
    with the error that names a URL, whatever the hosts answer.  A host whose
    answer has no coverage field resolves its promise and issues no task; so
    when no answer has one, the hook resolves with the task list as it
    was. *)
Theorem hook_without_flag hostObjects tasks :
  flag ≠ Some true →
  (∀ hostConfig tasks0 tasks' url,
     collectHost' hostConfig tasks0 ≠ (tasks', Throw (Error (expectedMessage url)))) ∧
  (∀ tasks' url,
     hook hostObjects tasks ≠ (tasks', Throw (Error (expectedMessage url)))) ∧
  (∀ hostConfig tasks0,
     bodyCoverage (request (hostUrl hostConfig)) = None →
     collectHost' hostConfig tasks0 = (tasks0, Ok tt)) ∧
  ((∀ hostConfig, hostConfig ∈ finalHostConfigs env hostObjects →
                  bodyCoverage (request (hostUrl hostConfig)) = None) →
   hook hostObjects tasks = (tasks, Ok tt)).
Proof.
  intros Hflag.
  assert (Hhost : ∀ hostConfig tasks0 tasks' url,
    collectHost' hostConfig tasks0 ≠ (tasks', Throw (Error (expectedMessage url)))).
  { intros hostConfig tasks0 tasks' url Hthrow. unfold collectHost in Hthrow.
    destruct (bodyCoverage (request (hostUrl hostConfig))) as [coverage|].
    - pose proof (sendCoverage_outcome coverage (hostComment hostConfig)
                    (hostProjectRoot hostConfig) tasks0) as Hsend.
      rewrite Hthrow in Hsend. by destruct Hsend as [_ ?].
    - destruct flag as [[]|]; simpl in Hthrow; done. }
  split; [exact Hhost|]. split; [|split].
  - intros tasks' url. unfold collectBackendCoverage.
    destruct (negb (String.eqb testingType "e2e") ||
              negb (String.eqb (default "integration" (specType spec)) "integration"));
      [done|].
    intros (pre & hostConfig & post & tasks1 & _ & _ & Hthrow)%mapSeries_Throw.
    exact (Hhost _ _ _ _ Hthrow).
  - intros hostConfig tasks0 Hbody. by apply collectHost_resolves.
  - intros Hnone. unfold collectBackendCoverage.
    destruct (negb (String.eqb testingType "e2e") ||
              negb (String.eqb (default "integration" (specType spec)) "integration"));
      [done|].
    induction (finalHostConfigs env hostObjects) as [|hostConfig rest IH]; simpl; [done|].
    rewrite collectHost_resolves; [|apply Hnone, list_elem_of_here | done].
    apply IH. intros h Hh. apply Hnone. by apply list_elem_of_further.
Qed.

(** When the hook resolves while end-to-end tests of an integration spec are
    running, it has issued exactly one task for each host that answered with
    coverage, in the order of the series, carrying the project root of the
    host and the filtered coverage of its answer; and with the flag set, every
    host has answered with coverage. *)
Theorem hook_resolved_tasks hostObjects tasks tasks' :
  testingType = "e2e" → default "integration" (specType spec) = "integration" →
  hook hostObjects tasks = (tasks', Ok tt) →
  (∃ added,
     tasks' = tasks ++ added ∧
     Forall2
       (λ task hostConfig,
          taskProjectRoot task = hostProjectRoot hostConfig ∧
          ∃ coverage,
            bodyCoverage (request (hostUrl hostConfig)) = Some coverage ∧
            filterFilesFromCoverage minimatch coverage config env spec
            = Ok (taskCoverage task))
       added
       (filter (λ hostConfig, is_Some (bodyCoverage (request (hostUrl hostConfig))))
          (finalHostConfigs env hostObjects)))
  ∧ (flag = Some true →
     ∀ hostConfig, hostConfig ∈ finalHostConfigs env hostObjects →
                   is_Some (bodyCoverage (request (hostUrl hostConfig)))).
Proof.
  intros He2e Hint. unfold collectBackendCoverage. rewrite He2e, Hint. simpl.
  generalize (finalHostConfigs env hostObjects) as hosts. intros hosts.
  revert tasks. induction hosts as [|hostConfig rest IH]; intros tasks; simpl.
  - intros [= <-]. split.
    + exists []. rewrite app_nil_r. split; [done | constructor].
    + intros _ h Hh. by apply elem_of_nil in Hh.
  - destruct (collectHost' hostConfig tasks) as [tasks1 [[]|e]] eqn:Hhost; [|done].
    intros [(added & -> & Hadded) Hall]%IH.
    unfold collectHost in Hhost.
    destruct (bodyCoverage (request (hostUrl hostConfig))) as [coverage|] eqn:Hbody.
    + pose proof (sendCoverage_outcome coverage (hostComment hostConfig)
                    (hostProjectRoot hostConfig) tasks) as Hsend.
      rewrite Hhost in Hsend. destruct Hsend as (total & Hfilter & -> & _).
      split.
      * eexists. rewrite <- app_assoc. split; [done|].
        rewrite filter_cons_True by (by rewrite Hbody). simpl.
        constructor; [|done]. simpl. split; [done|]. exists coverage. by rewrite Hbody.
      * intros Hflag h [-> | Hh]%elem_of_cons; [by rewrite Hbody | by apply Hall].
    + destruct flag as [[]|] eqn:Hflag; simpl in Hhost; try done;
        injection Hhost as <-;
        (split;
         [exists added; split; [done|];
          rewrite filter_cons_False by (rewrite Hbody; by intros [? ?]); done
         | intros [=]]).
Qed.

End MoreSupportProperties.

Lemma hook_failure_stops_the_series_witness :
  collectBackendCoverage globMatch exampleConfig mandatoryEnv exampleSpec "e2e"
    exampleRequest [] []
  = ([{| taskProjectRoot := None; taskCoverage := sourceCoverage |}],
     Throw (Error (expectedMessage "http://localhost:4000/__coverage__"))) ∧
  ∃ pre hostConfig post,
    finalHostConfigs mandatoryEnv [] = pre ++ hostConfig :: post ∧
    mapSeries (collectHost globMatch exampleConfig mandatoryEnv exampleSpec
                 exampleRequest) pre []
    = ([{| taskProjectRoot := None; taskCoverage := sourceCoverage |}], Ok tt).
Proof.
  assert (H : collectBackendCoverage globMatch exampleConfig mandatoryEnv exampleSpec
                "e2e" exampleRequest [] []
              = ([{| taskProjectRoot := None; taskCoverage := sourceCoverage |}],
                 Throw (Error (expectedMessage "http://localhost:4000/__coverage__"))))
    by (vm_compute; reflexivity).
  split; [exact H|].
  destruct (hook_failure_stops_the_series globMatch exampleConfig mandatoryEnv
              exampleSpec "e2e" exampleRequest [] [] _ _ H)
    as (_ & _ & pre & hostConfig & post & Hhosts & Hpre & _).
  exists pre, hostConfig, post. split; [exact Hhosts | exact Hpre].
Defined.

Lemma hook_without_flag_witness :
  (expectBackendCoverageOnly (codeCoverageConfig excludeEnv) ≠ Some true ∧
   ∀ hostConfig,
     hostConfig ∈ finalHostConfigs excludeEnv
       [{| hostUrl := "http://localhost:4000/__coverage__";
           hostProjectRoot := None; hostComment := "ssr - localhost:4000" |}] →
     bodyCoverage (exampleRequest (hostUrl hostConfig)) = None) ∧
  collectBackendCoverage globMatch exampleConfig excludeEnv exampleSpec "e2e"
    exampleRequest
    [{| hostUrl := "http://localhost:4000/__coverage__";
        hostProjectRoot := None; hostComment := "ssr - localhost:4000" |}] []
  = ([], Ok tt).
Proof.
  assert (Hflag : expectBackendCoverageOnly (codeCoverageConfig excludeEnv) ≠ Some true)
    by discriminate.
  assert (Hnone : ∀ hostConfig,
    hostConfig ∈ finalHostConfigs excludeEnv
      [{| hostUrl := "http://localhost:4000/__coverage__";
          hostProjectRoot := None; hostComment := "ssr - localhost:4000" |}] →
    bodyCoverage (exampleRequest (hostUrl hostConfig)) = None).
  { intros hostConfig Hin. simpl in Hin. by apply list_elem_of_singleton in Hin as ->. }
  split; [split; [exact Hflag | exact Hnone]|].
  exact (proj2 (proj2 (proj2
           (hook_without_flag globMatch exampleConfig excludeEnv exampleSpec "e2e"
              exampleRequest _ [] Hflag))) Hnone).
Defined.

(** ** v8ToIstanbul.js: the file-system steps and the converted map *)

Section MoreConverterProperties.

Variable imports : Imports.

Lemma convertProfileCoverageToIstanbul_Ok_inv cov comment clientRoots converted :
  convertProfileCoverageToIstanbul imports cov comment clientRoots = Ok converted →
  converted =
    mergeAll (convertAll imports (List.filter keepScript (result cov)) clientRoots).
Proof.
  unfold convertProfileCoverageToIstanbul.
  destruct (exists_ imports (cacheDir imports)) as [present|]; [|done]. simpl.
  destruct (if present then Ok tt else mkdir imports (cacheDir imports)); [|done].
  simpl. destruct (saveDebugFile imports _ comment); [|done].
  simpl. by intros [= <-].
Qed.

(** The file-system steps are not best effort.  When the cache directory is
    missing and cannot be made, the conversion rejects with that error; and
    when both directories are ready but the debug dump cannot be written, it
    rejects with the error of the write, although every script may have been
    converted. *)
Theorem file_system_failure_rejects cov comment clientRoots e :
  (exists_ imports (cacheDir imports) = Ok false →
   mkdir imports (cacheDir imports) = Throw e →
   convertProfileCoverageToIstanbul imports cov comment clientRoots = Throw e)
  ∧
  (directoryReady imports (cacheDir imports) →
   directoryReady imports (debugDir imports) →
   (∀ payload,
      writeFile imports
        (pathJoin imports (debugDir imports) (slugify imports comment +:+ ".json"))
        payload = Throw e) →
   convertProfileCoverageToIstanbul imports cov comment clientRoots = Throw e).
Proof.
  split.
  - intros Hmissing Hmkdir. unfold convertProfileCoverageToIstanbul.
    by rewrite Hmissing; simpl; rewrite Hmkdir.
  - intros Hcache Hdebug Hwrite.
    unfold convertProfileCoverageToIstanbul, saveDebugFile.
    destruct Hcache as [-> | [-> ->]]; destruct Hdebug as [-> | [-> ->]]; simpl;
      by rewrite Hwrite.
Qed.

(** The files of the converted map are exactly the files reported by the
    conversions that succeeded, of the scripts that passed the script filter:
    nothing is lost and nothing else is there. *)
Theorem converted_files_come_from_kept_scripts cov comment clientRoots converted file :
  convertProfileCoverageToIstanbul imports cov comment clientRoots = Ok converted →
  (file ∈ dom converted ↔
   ∃ obj fragment,
     obj ∈ result cov ∧ keepScript obj = true ∧
     convertToIstanbul imports obj clientRoots = Ok (Some fragment) ∧
     file ∈ dom fragment).
Proof.
  intros ->%convertProfileCoverageToIstanbul_Ok_inv.
  rewrite dom_mergeAll. unfold convertAll. split.
  - intros (fragment & Hin & Hfile).
    apply list_elem_of_In, in_map_iff in Hin as (obj & Hobj & Hkept).
    apply filter_In in Hkept as [Hin Hkeep]. exists obj, fragment.
    split; [by apply list_elem_of_In|]. split; [done|]. split; [|done].
    by destruct (convertToIstanbul imports obj clientRoots) as [[?|]|];
      simpl in Hobj; try done; injection Hobj as ->.
  - intros (obj & fragment & Hin & Hkeep & Hconv & Hfile).
    exists fragment. split; [|done].
    apply list_elem_of_In, in_map_iff. exists obj. split; [by rewrite Hconv|].
    apply filter_In. split; [by apply list_elem_of_In | done].
Qed.

End MoreConverterProperties.

Lemma file_system_failure_rejects_witness :
  (directoryReady readOnlyImports (cacheDir readOnlyImports) ∧
   directoryReady readOnlyImports (debugDir readOnlyImports) ∧
   ∀ payload,
     writeFile readOnlyImports
       (pathJoin readOnlyImports (debugDir readOnlyImports)
          (slugify readOnlyImports "client" +:+ ".json"))
       payload = Throw (Error "EROFS")) ∧
  convertProfileCoverageToIstanbul readOnlyImports
    {| result := [exampleScript "http://localhost:3000/src/a.js"] |} "client" ∅
  = Throw (Error "EROFS").
Proof.
  assert (Hcache : directoryReady readOnlyImports (cacheDir readOnlyImports))
    by (left; reflexivity).
  assert (Hdebug : directoryReady readOnlyImports (debugDir readOnlyImports))
    by (left; reflexivity).
  assert (Hwrite : ∀ payload,
    writeFile readOnlyImports
      (pathJoin readOnlyImports (debugDir readOnlyImports)
         (slugify readOnlyImports "client" +:+ ".json"))
      payload = Throw (Error "EROFS"))
    by (intros payload; reflexivity).
  split; [split; [exact Hcache | split; [exact Hdebug | exact Hwrite]]|].
  exact (proj2 (file_system_failure_rejects readOnlyImports
                  {| result := [exampleScript "http://localhost:3000/src/a.js"] |}
                  "client" ∅ (Error "EROFS")) Hcache Hdebug Hwrite).
Defined.

Lemma converted_files_come_from_kept_scripts_witness :
  convertProfileCoverageToIstanbul exampleImports
    {| result := [exampleScript "http://localhost:3000/src/a.js";
                  exampleScript "http://localhost:3000/broken/d.js"] |} "client" ∅
  = Ok {[ "/app/src/a.js" := exampleFile "/app/src/a.js" 1 1 1 ]} ∧
  ("/app/broken/d.js" ∈ dom ({[ "/app/src/a.js" := exampleFile "/app/src/a.js" 1 1 1 ]}
                              : gmap string FileCoverage) ↔
   ∃ obj fragment,
     obj ∈ [exampleScript "http://localhost:3000/src/a.js";
            exampleScript "http://localhost:3000/broken/d.js"] ∧
     keepScript obj = true ∧
     convertToIstanbul exampleImports obj ∅ = Ok (Some fragment) ∧
     "/app/broken/d.js" ∈ dom fragment).
Proof.
  assert (H : convertProfileCoverageToIstanbul exampleImports
                {| result := [exampleScript "http://localhost:3000/src/a.js";
                              exampleScript "http://localhost:3000/broken/d.js"] |}
                "client" ∅
              = Ok {[ "/app/src/a.js" := exampleFile "/app/src/a.js" 1 1 1 ]})
    by (vm_compute; reflexivity).
  split; [exact H|].
  exact (converted_files_come_from_kept_scripts exampleImports _ _ _ _
           "/app/broken/d.js" H).
Defined.

(** ** The order of the scripts of a snapshot *)

Lemma mergeHits_same_structure {M H} `{EqDecision M} (add : H → H → H)
    (structure : gmap string M) (hits1 hits2 : gmap string H) :
  mergeHits add structure hits1 structure hits2 =
  union_with (λ x y, Some (add x y)) hits1 hits2.
Proof.
  apply map_eq. intros id. unfold mergeHits, tagHits.
  rewrite lookup_merge, !map_lookup_imap, lookup_union_with.
  destruct (hits1 !! id) as [h1|], (hits2 !! id) as [h2|]; simpl; try done.
  by destruct (decide (structure !! id = structure !! id)).
Qed.

Lemma union_with_add_right_comm {H} (add : H → H → H) (h1 h2 h3 : gmap string H) :
  (∀ x y, add x y = add y x) → (∀ x y z, add (add x y) z = add x (add y z)) →
  union_with (λ x y, Some (add x y)) (union_with (λ x y, Some (add x y)) h1 h2) h3 =
  union_with (λ x y, Some (add x y)) (union_with (λ x y, Some (add x y)) h1 h3) h2.
Proof.
  intros Hcomm Hassoc. apply map_eq. intros id. rewrite !lookup_union_with.
  destruct (h1 !! id) as [a|], (h2 !! id) as [b|], (h3 !! id) as [c|]; simpl;
    try done; f_equal.
  - by rewrite !Hassoc, (Hcomm b c).
  - apply Hcomm.
Qed.

Lemma addBranchHits_assoc (x y z : list N) :
  addBranchHits (addBranchHits x y) z = addBranchHits x (addBranchHits y z).
Proof.
  revert y z. induction x as [|a x IH]; intros [|b y] [|c z]; simpl; try done.
  by rewrite IH, N.add_assoc.
Qed.

Lemma sameStructure_sym (x y : FileCoverage) : sameStructure x y → sameStructure y x.
Proof. intros (? & ? & ? & ?). by repeat split. Qed.

Lemma sameStructure_trans (x y z : FileCoverage) :
  sameStructure x y → sameStructure y z → sameStructure x z.
Proof. intros (? & ? & ? & ?) (? & ? & ? & ?). repeat split; congruence. Qed.

Lemma sameStructure_merge (x y : FileCoverage) :
  sameStructure x y → sameStructure (mergeFileCoverage x y) x.
Proof.
  intros (Hp & Hs & Hf & Hb). unfold mergeFileCoverage, sameStructure. simpl.
  rewrite <- Hs, <- Hf, <- Hb. by rewrite !(idemp_L (∪)).
Qed.

Lemma mergeFileCoverage_right_comm (x y z : FileCoverage) :
  sameStructure x y → sameStructure x z →
  mergeFileCoverage (mergeFileCoverage x y) z =
  mergeFileCoverage (mergeFileCoverage x z) y.
Proof.
  destruct x, y, z. intros (Hp1 & Hs1 & Hf1 & Hb1) (Hp2 & Hs2 & Hf2 & Hb2).
  simpl in *. subst. unfold mergeFileCoverage. simpl.
  rewrite !(idemp_L (∪)), !mergeHits_same_structure. f_equal.
  - apply union_with_add_right_comm; [apply N.add_comm | intros; by rewrite N.add_assoc].
  - apply union_with_add_right_comm; [apply N.add_comm | intros; by rewrite N.add_assoc].
  - apply union_with_add_right_comm; [apply addBranchHits_comm | apply addBranchHits_assoc].
Qed.

Lemma mergeCoverageMap_right_comm (A B C : gmap string FileCoverage) :
  consistent A B → consistent A C → consistent B C →
  mergeCoverageMap (mergeCoverageMap A B) C = mergeCoverageMap (mergeCoverageMap A C) B.
Proof.
  intros Hab Hac Hbc. apply map_eq. intros file. unfold mergeCoverageMap.
  rewrite !lookup_union_with.
  destruct (A !! file) as [x|] eqn:Ha, (B !! file) as [y|] eqn:Hb,
    (C !! file) as [z|] eqn:Hc; simpl; try done; f_equal.
  - apply mergeFileCoverage_right_comm; [by eapply Hab | by eapply Hac].
  - apply mergeFileCoverage_comm. by eapply Hbc.
Qed.

Lemma consistent_mergeCoverageMap (A B C : gmap string FileCoverage) :
  consistent A B → consistent A C → consistent B C →
  consistent (mergeCoverageMap A B) C.
Proof.
  intros Hab Hac Hbc file x z. unfold mergeCoverageMap. rewrite lookup_union_with.
  destruct (A !! file) as [a|] eqn:Ha, (B !! file) as [b|] eqn:Hb; simpl;
    intros [= <-] Hz.
  - eapply sameStructure_trans; [apply sameStructure_merge; by eapply Hab|].
    by eapply Hac.
  - by eapply Hac.
  - by eapply Hbc.
Qed.

(** The [reduce] of lines 100-108 does not depend on the order of the
    conversions: when the fragments agree pairwise on the structure of the
    files they share, any rearrangement of the array of conversions, nulls
    included, merges to the same coverage map. *)
Theorem mergeAll_order_independent
    (coverages coverages' : list (option (gmap string FileCoverage))) :
  coverages ≡ₚ coverages' →
  (∀ A B, Some A ∈ coverages → Some B ∈ coverages → consistent A B) →
  mergeAll coverages = mergeAll coverages'.
Proof.
  intros Hperm Hpair. unfold mergeAll.
  assert (Hempty : ∀ B, Some B ∈ coverages → consistent createCoverageMap B).
  { intros B _ file x y Hx. unfold createCoverageMap in Hx.
    by rewrite lookup_empty in Hx. }
  revert Hpair Hempty. generalize createCoverageMap as acc.
  induction Hperm as [|c l l' Hperm IH|c d l|l l' l'' Hperm1 IH1 Hperm2 IH2];
    intros acc Hpair Hacc; simpl.
  - done.
  - apply IH.
    + intros A B HA HB. apply Hpair; by apply list_elem_of_further.
    + intros B HB. destruct c as [A|].
      * apply consistent_mergeCoverageMap.
        -- apply Hacc, list_elem_of_here.
        -- by apply Hacc, list_elem_of_further.
        -- apply Hpair; [apply list_elem_of_here | by apply list_elem_of_further].
      * by apply Hacc, list_elem_of_further.
  - f_equal. destruct c as [A|], d as [B|]; try done.
    apply mergeCoverageMap_right_comm.
    + apply Hacc, list_elem_of_here.
    + apply Hacc, list_elem_of_further, list_elem_of_here.
    + apply Hpair; [apply list_elem_of_here
                   | apply list_elem_of_further, list_elem_of_here].
  - rewrite IH1 by done. apply IH2.
    + intros A B HA HB. apply Hpair; by rewrite Hperm1.
    + intros B HB. apply Hacc. by rewrite Hperm1.
Qed.

Lemma mergeAll_order_independent_witness :
  ([Some fragmentA; None; Some fragmentB] ≡ₚ [Some fragmentB; Some fragmentA; None] ∧
   ∀ A B, Some A ∈ [Some fragmentA; None; Some fragmentB] →
          Some B ∈ [Some fragmentA; None; Some fragmentB] → consistent A B) ∧
  mergeAll [Some fragmentA; None; Some fragmentB] =
  mergeAll [Some fragmentB; Some fragmentA; None].
Proof.
  assert (Hperm : [Some fragmentA; None; Some fragmentB]
                  ≡ₚ [Some fragmentB; Some fragmentA; None]).
  { change ([Some fragmentA; None] ++ [Some fragmentB]
            ≡ₚ [Some fragmentB] ++ [Some fragmentA; None]).
    apply Permutation_app_comm. }
  assert (Hself : ∀ A : gmap string FileCoverage, consistent A A).
  { intros A file x y Hx Hy. rewrite Hx in Hy. injection Hy as <-. by repeat split. }
  assert (Hsym : ∀ A B : gmap string FileCoverage, consistent A B → consistent B A).
  { intros A B H file x y Hx Hy. apply sameStructure_sym. by eapply H. }
  assert (Hpair : ∀ A B, Some A ∈ [Some fragmentA; None; Some fragmentB] →
                         Some B ∈ [Some fragmentA; None; Some fragmentB] →
                         consistent A B).
  { intros A B HA HB.
    assert (Hcases : ∀ X, Some X ∈ [Some fragmentA; None; Some fragmentB] →
                          X = fragmentA ∨ X = fragmentB).
    { intros X HX. apply elem_of_cons in HX as [[= ->] | HX]; [by left|].
      apply elem_of_cons in HX as [? | HX]; [done|].
      apply list_elem_of_singleton in HX as [= ->]. by right. }
    destruct (Hcases A HA) as [-> | ->], (Hcases B HB) as [-> | ->].
    - apply Hself.
    - exact fragments_consistent.
    - apply Hsym. exact fragments_consistent.
    - apply Hself. }
  split; [split; [exact Hperm | exact Hpair]|].
  exact (mergeAll_order_independent _ _ Hperm Hpair).
Defined.

Lemma hook_resolved_tasks_witness :
  ("e2e" = "e2e" ∧ default "integration" (specType exampleSpec) = "integration" ∧
   collectBackendCoverage globMatch exampleConfig answeringEnv exampleSpec "e2e"
     exampleRequest [] []
   = ([{| taskProjectRoot := None; taskCoverage := sourceCoverage |}], Ok tt)) ∧
  ∀ hostConfig, hostConfig ∈ finalHostConfigs answeringEnv [] →
                is_Some (bodyCoverage (exampleRequest (hostUrl hostConfig))).
Proof.
  assert (H : collectBackendCoverage globMatch exampleConfig answeringEnv exampleSpec
                "e2e" exampleRequest [] []
              = ([{| taskProjectRoot := None; taskCoverage := sourceCoverage |}], Ok tt))
    by (vm_compute; reflexivity).
  split; [split; [reflexivity | split; [reflexivity | exact H]]|].
  exact (proj2 (hook_resolved_tasks globMatch exampleConfig answeringEnv exampleSpec
                  "e2e" exampleRequest [] [] _ eq_refl eq_refl H) eq_refl).
Defined.

(** ** support.js: the switch at the end of the file *)

Lemma mapKeysToLowerCase_snoc (object : list (string * EnvValue)) (entry : string * EnvValue) :
  mapKeysToLowerCase (object ++ [entry]) =
  <[toLowerCase entry.1 := entry.2]> (mapKeysToLowerCase object).
Proof. unfold mapKeysToLowerCase. by rewrite fold_left_app. Qed.

Lemma mapKeysToLowerCase_lookup_Some object key value :
  mapKeysToLowerCase object !! key = Some value →
  ∃ spelled, (spelled, value) ∈ object ∧ toLowerCase spelled = key.
Proof.
  induction object as [|[spelled v] object IH] using rev_ind.
  - unfold mapKeysToLowerCase. simpl. by rewrite lookup_empty.
  - rewrite mapKeysToLowerCase_snoc. simpl. rewrite lookup_insert_Some.
    intros [[<- <-] | [_ Hrest]].
    + exists spelled. split; [|done]. apply elem_of_app. right. apply list_elem_of_here.
    + destruct (IH Hrest) as (spelled' & Hin & Hlow).
      exists spelled'. split; [|done]. apply elem_of_app. by left.
Qed.

(** The switch.  (1) The hooks are registered only if the property
    [codeCoverageTasksRegistered], spelled exactly so, is the boolean [true]
    and some property whose name is [coverage] in some letter case has a
    value that renders as [true].  (2) When no property name is [coverage] in
    any letter case, the hooks are skipped.  (3) Of several properties whose
    names differ in letter case only, the last one enumerated decides: with
    such a property at the end, the hooks are skipped exactly when its value
    does not render as [true]. *)
Theorem supportFile_switch (cypressEnv : list (string * EnvValue)) :
  (supportFile cypressEnv = RegisterHooks →
   getEnv cypressEnv "codeCoverageTasksRegistered" = EBoolean true ∧
   ∃ spelled value, (spelled, value) ∈ cypressEnv ∧
                    toLowerCase spelled = "coverage" ∧ toString value = "true")
  ∧
  ((∀ spelled value, (spelled, value) ∈ cypressEnv → toLowerCase spelled ≠ "coverage") →
   supportFile cypressEnv = SkipHooks)
  ∧
  (∀ spelled value, toLowerCase spelled = "coverage" →
     (supportFile (cypressEnv ++ [(spelled, value)]) = SkipHooks ↔
      toString value ≠ "true")).
Proof.
  split; [|split].
  - unfold supportFile. cbv zeta.
    destruct (mapKeysToLowerCase cypressEnv !! "coverage") as [value|] eqn:Hcov;
      simpl; [|done].
    destruct (String.eqb (toString value) "true") eqn:Htrue; simpl; [|done].
    apply String.eqb_eq in Htrue.
    apply mapKeysToLowerCase_lookup_Some in Hcov as (spelled & Hin & Hlow).
    destruct (getEnv cypressEnv "codeCoverageTasksRegistered") as [| |[]| |];
      intros; try done.
    split; [done|]. by exists spelled, value.
  - intros Hnone. unfold supportFile. cbv zeta.
    destruct (mapKeysToLowerCase cypressEnv !! "coverage") as [value|] eqn:Hcov;
      [|done].
    apply mapKeysToLowerCase_lookup_Some in Hcov as (spelled & Hin & Hlow).
    by destruct (Hnone spelled value Hin).
  - intros spelled value Hlow. unfold supportFile. cbv zeta.
    rewrite mapKeysToLowerCase_snoc. simpl. rewrite Hlow, lookup_insert_eq. simpl.
    destruct (String.eqb (toString value) "true") eqn:Htrue; simpl.
    + apply String.eqb_eq in Htrue. split; [|done].
      by destruct (getEnv _ "codeCoverageTasksRegistered") as [| |[]| |].
    + apply String.eqb_neq in Htrue. done.
Qed.

Lemma supportFile_switch_witness :
  toLowerCase "COVERAGE" = "coverage" ∧
  (supportFile (exampleCypressEnv ++ [("COVERAGE", EString "true")]) = SkipHooks ↔
   toString (EString "true") ≠ "true").
Proof.
  split; [reflexivity|].
  exact (proj2 (proj2 (supportFile_switch exampleCypressEnv))
           "COVERAGE" (EString "true") eq_refl).
Defined.

(** ** v8ToIstanbul.js: the script filter *)

(** The script filter keeps exactly the records whose URL begins with
    [file:], [http:] or [https:] and contains none of [/node_modules/],
    [/__cypress/] and [/__/assets/]; it keeps them in the order of the
    snapshot, and a second pass over its result changes nothing. *)
Theorem script_filter_keeps_exactly (scripts : list ScriptCoverage) (obj : ScriptCoverage) :
  (In obj (List.filter keepScript scripts) ↔
   In obj scripts ∧
   ((∃ rest, url obj = "file:" +:+ rest) ∨ (∃ rest, url obj = "http:" +:+ rest) ∨
    (∃ rest, url obj = "https:" +:+ rest)) ∧
   ¬ (∃ before after, url obj = before +:+ "/node_modules/" +:+ after) ∧
   ¬ (∃ before after, url obj = before +:+ "/__cypress/" +:+ after) ∧
   ¬ (∃ before after, url obj = before +:+ "/__/assets/" +:+ after))
  ∧ List.filter keepScript scripts `sublist_of` scripts
  ∧ List.filter keepScript (List.filter keepScript scripts) = List.filter keepScript scripts.
Proof.
  split; [|split].
  - rewrite filter_In, keepScript_spec, andb_true_iff, !orb_true_iff, !startsWith_spec,
      negb_true_iff.
    pose proof (excludePath_spec (url obj)) as Hex.
    destruct (excludePath (url obj)).
    + split; [intros [_ [_ ?]]; done|]. intros (_ & _ & H1 & H2 & H3).
      destruct (proj1 Hex eq_refl) as [? | [? | ?]]; tauto.
    + split.
      * intros [Hin [Hscheme _]]. split; [done|]. split; [tauto|].
        repeat split; intros H; assert (false = true) by (apply Hex; tauto); done.
      * intros (Hin & Hscheme & _). split; [done|]. split; [tauto | done].
  - induction scripts as [|x rest IH]; simpl; [constructor|].
    destruct (keepScript x); [by apply sublist_skip | by apply sublist_cons].
  - induction scripts as [|x rest IH]; simpl; [done|].
    destruct (keepScript x) eqn:Hx; simpl; [by rewrite Hx, IH | done].
Qed.
